(** * nowoptics-back: the message service and the WebSocket hub of server.js

    A shallow embedding of [src/server.js] (its first, current version:
    the Express handlers of /messages, the [clients] registry, the
    [message] and [close] socket handlers and [broadcast]) and the
    properties of the registry, the relay and the broadcast.

    Conventions.
    - A JavaScript value that came out of [JSON.parse] is a [json]; a value
      that may be [undefined] is an [option json] with [None] for
      [undefined].
    - The discriminator of frames and events is the property [type] of the
      source; the specification calls its value the "kind" of the frame.
    - The Redis keyspace is a [gmap]; JavaScript objects and the [Map] of
      clients are insertion-ordered, and that order is observable (in the
      serialised text, and in the order of the sends of [broadcast]), so
      both are association lists.
    - [ws.send] belongs to the ws library: whether it throws on a given
      connection is a parameter of the environment ([send_throws]). *)

From Stdlib Require Import ZArith.
From stdpp Require Import base decidable option list strings gmap pretty.

Local Open Scope string_scope.
Local Open Scope list_scope.

(** ** JSON values and JavaScript objects *)

Set Warnings "-register-all".

Inductive json : Type :=
  | JNull
  | JBool (b : bool)
  | JNum (n : Z)
  | JStr (s : string)
  | JArr (items : list json)
  | JObj (props : list (string * json)).

(** An object: its own enumerable properties, in property order. *)
Abbreviation object := (list (string * json)).

(** [o[name]]: [None] is [undefined]. *)
Fixpoint get_prop (name : string) (o : object) : option json :=
  match o with
  | [] => None
  | (k, v) :: rest => if decide (k = name) then Some v else get_prop name rest
  end.

(** Defining property [name] on [o]: an existing property keeps its place
    and takes the new value, a new one goes last. *)
Fixpoint set_prop (name : string) (v : json) (o : object) : object :=
  match o with
  | [] => [(name, v)]
  | (k, w) :: rest =>
      if decide (k = name) then (k, v) :: rest else (k, w) :: set_prop name v rest
  end.

(** [o] without property [name]. *)
Fixpoint del_prop (name : string) (o : object) : object :=
  match o with
  | [] => []
  | (k, w) :: rest =>
      if decide (k = name) then del_prop name rest else (k, w) :: del_prop name rest
  end.

(** JavaScript truthiness, as tested by [!x] and [if (x)]. *)
Definition truthy (x : option json) : bool :=
  match x with
  | None => false
  | Some JNull => false
  | Some (JBool b) => b
  | Some (JNum n) => negb (n =? 0)%Z
  | Some (JStr s) => negb (String.eqb s "")
  | Some (JArr _) => true
  | Some (JObj _) => true
  end.

(** [x === s] for a string literal [s]. *)
Definition is_str (x : option json) (s : string) : bool :=
  match x with
  | Some (JStr t) => String.eqb t s
  | _ => false
  end.

(** ** The Map of clients *)

(** A connection handle ([ws]); two handles are [===] when equal. *)
Definition conn := nat.

(** Keys of a JavaScript [Map] are compared with SameValueZero: primitives
    by value, objects and arrays by reference.  Every [JSON.parse] builds
    fresh objects, so an object key is identified by the serial number of
    its allocation. *)
Inductive mapkey : Type :=
  | KUndefined
  | KNull
  | KBool (b : bool)
  | KNum (n : Z)
  | KStr (s : string)
  | KObject (ref : nat).

Global Instance mapkey_eq_dec : EqDecision mapkey.
Proof. solve_decision. Defined.

Abbreviation Map := (list (mapkey * conn)).

Fixpoint Map_get (k : mapkey) (m : Map) : option conn :=
  match m with
  | [] => None
  | (k', v) :: rest => if decide (k' = k) then Some v else Map_get k rest
  end.

(** [m.set(k, v)]: an existing key keeps its position in the iteration
    order, a new key is appended. *)
Fixpoint Map_set (k : mapkey) (v : conn) (m : Map) : Map :=
  match m with
  | [] => [(k, v)]
  | (k', v') :: rest =>
      if decide (k' = k) then (k', v) :: rest else (k', v') :: Map_set k v rest
  end.

Fixpoint Map_delete (k : mapkey) (m : Map) : Map :=
  match m with
  | [] => []
  | (k', v') :: rest =>
      if decide (k' = k) then Map_delete k rest else (k', v') :: Map_delete k rest
  end.

(** The keys of a [Map] are pairwise distinct. *)
Definition Map_wf (m : Map) : Prop := NoDup (m.*1).

(** The key a value denotes when it is stored: an object or array counts
    as the [fresh]-th allocation. *)
Definition key_of (fresh : nat) (x : option json) : mapkey :=
  match x with
  | None => KUndefined
  | Some JNull => KNull
  | Some (JBool b) => KBool b
  | Some (JNum n) => KNum n
  | Some (JStr s) => KStr s
  | Some (JArr _) | Some (JObj _) => KObject fresh
  end.

(** Whether a value is compared by reference. *)
Definition by_reference (x : option json) : bool :=
  match x with
  | Some (JArr _) | Some (JObj _) => true
  | _ => false
  end.

(** ** The socket hub *)

(** What a handler does to the outside: a [ws.send] that did not throw,
    with the value whose JSON text was sent, or a line on [console.error]. *)
Inductive effect : Type :=
  | Send (to : conn) (data : json)
  | LogError (label : string).

Definition sends (es : list effect) : list (conn * json) :=
  omap (λ e, match e with Send c d => Some (c, d) | LogError _ => None end) es.

(** The frames delivered to connection [c]. *)
Definition received (c : conn) (es : list effect) : list json :=
  omap (λ e, match e with
             | Send c' d => if decide (c' = c) then Some d else None
             | LogError _ => None
             end) es.

(** The environment of one handler run. *)
Record env : Type := {
  send_throws : conn → bool;  (* ws.send throws on this connection *)
  now : string;               (* new Date().toISOString() *)
  redis_down : bool;          (* the calls to the store reject *)
}.

(** An inbound frame, as [JSON.parse] sees its text: a syntax error, or
    the value the text denotes. *)
Inductive frame : Type :=
  | Malformed
  | Parsed (v : json).

(** The registry [clients] and the allocation counter that gives object
    keys their identity. *)
Record hub : Type := {
  clients : Map;
  next_ref : nat;
}.

(** The object serialised for the target: [{...parsedMessage, sender:
    parsedMessage.userKey}].  When [userKey] is [undefined] the property
    [sender] is defined with value [undefined], and [JSON.stringify] leaves
    such a property out of the text. *)
Definition relayed (parsedMessage : object) : object :=
  match get_prop "userKey" parsedMessage with
  | Some u => set_prop "sender" u parsedMessage
  | None => del_prop "sender" parsedMessage
  end.

(** [clients.get(parsedMessage.target)]: a target that is an object was
    allocated by this very parse, so it is the key of no entry. *)
Definition lookup_target (target : option json) (m : Map) : option conn :=
  if by_reference target then None else Map_get (key_of 0 target) m.

Definition is_signal (type : option json) : bool :=
  is_str type "offer" || is_str type "answer" || is_str type "candidate".

(** [ws.on('message', ...)] of connection [ws]. *)
Definition on_message (e : env) (ws : conn) (message : frame) (h : hub)
  : hub * list effect :=
  match message with
  | Malformed => (h, [LogError "Error parsing message:"])
  | Parsed JNull =>
      (* reading [.type] of null throws a TypeError, caught below *)
      (h, [LogError "Error parsing message:"])
  | Parsed (JObj parsedMessage) =>
      let type := get_prop "type" parsedMessage in
      if is_str type "register" then
        let userKey := get_prop "userKey" parsedMessage in
        ({| clients := Map_set (key_of (next_ref h) userKey) ws (clients h);
            next_ref := if by_reference userKey then S (next_ref h) else next_ref h |},
         [])
      else if is_signal type then
        match lookup_target (get_prop "target" parsedMessage) (clients h) with
        | Some targetClient =>
            if send_throws e targetClient
            then (h, [LogError "Error parsing message:"])
            else (h, [Send targetClient (JObj (relayed parsedMessage))])
        | None => (h, [])
        end
      else (h, [])
  | Parsed _ =>
      (* a boolean, number, string or array has no [type] of its own *)
      (h, [])
  end.

(** The [forEach] of the close handler: every entry of the iteration is
    visited in order and its key deleted from the live map when its value
    is the closing connection. *)
Fixpoint close_each (ws : conn) (entries : Map) (live : Map) : Map :=
  match entries with
  | [] => live
  | (userKey, client) :: rest =>
      close_each ws rest
        (if decide (client = ws) then Map_delete userKey live else live)
  end.

(** [ws.on('close', ...)] of connection [ws]. *)
Definition on_close (ws : conn) (h : hub) : hub :=
  {| clients := close_each ws (clients h) (clients h); next_ref := next_ref h |}.

(** How a call ends. *)
Inductive completion : Type := Returns | Throws.

(** [broadcast(data)]: [clients.forEach(ws => ws.send(JSON.stringify(data)))]. *)
Fixpoint broadcast (e : env) (data : json) (entries : Map)
  : list effect * completion :=
  match entries with
  | [] => ([], Returns)
  | (_, ws) :: rest =>
      if send_throws e ws then ([], Throws)
      else let '(es, c) := broadcast e data rest in (Send ws data :: es, c)
  end.

(** ** JavaScript numbers, and values as strings *)

(** The JavaScript number an integer becomes: itself when it has at most
    53 significant bits, else the nearest integer that has, the even one of
    two that are equally near (IEEE 754 double precision). *)
Definition js_number (n : Z) : Z :=
  let a := Z.abs n in
  let bits := (Z.log2 a + 1)%Z in
  if (bits <=? 53)%Z then n
  else
    let sh := (bits - 53)%Z in
    let q := Z.shiftr a sh in
    let rest := (a - Z.shiftl q sh)%Z in
    let half := Z.shiftl 1 (sh - 1) in
    let q' := if (half <? rest)%Z || ((rest =? half)%Z && Z.odd q)
              then (q + 1)%Z else q in
    (Z.sgn n * Z.shiftl q' sh)%Z.

Global Arguments js_number : simpl never.

(** The decimal number with the fewest significant digits that reads back
    as the number [m], the nearest one of two; [unit] is the weight of the
    last digit kept, tried from the first digit down. *)
Fixpoint shortest_from (fuel : nat) (unit m : Z) : Z :=
  let lo := (m / unit * unit)%Z in
  let hi := (lo + unit)%Z in
  match (js_number lo =? m)%Z, (js_number hi =? m)%Z with
  | true, true =>
      if (m - lo <? hi - m)%Z then lo
      else if (hi - m <? m - lo)%Z then hi
      else if Z.even (lo / unit) then lo else hi
  | true, false => lo
  | false, true => hi
  | false, false =>
      match fuel with
      | O => m
      | S fuel' => shortest_from fuel' (unit / 10) m
      end
  end.

Fixpoint strip_zeros (s : string) : string :=
  match s with
  | EmptyString => EmptyString
  | String c rest =>
      let r := strip_zeros rest in
      if String.eqb r "" && Ascii.eqb c (Ascii.ascii_of_nat 48) then "" else String c r
  end.

(** [d.ddde+x], the form of numbers from 10^21 on. *)
Definition exponential (v : Z) : string :=
  let digits := pretty v in
  let exp := (Z.of_nat (String.length digits) - 1)%Z in
  match strip_zeros digits with
  | String d EmptyString => String d ("e+" +:+ pretty exp)
  | String d more => String d ("." +:+ more +:+ "e+" +:+ pretty exp)
  | EmptyString => "0"
  end.

Definition positive_string (a : Z) : string :=
  if (a <=? 2 ^ 53)%Z then pretty a
  else
    let len := String.length (pretty a) in
    let v := shortest_from (len - 1) (10 ^ (Z.of_nat len - 1)) a in
    if (v <? 10 ^ 21)%Z then pretty v else exponential v.

(** [String(n)] and [`${n}`] for an integer-valued number [n]: up to 2^53
    all its digits, beyond that the shortest digits that read back as [n],
    padded with zeros. *)
Definition number_string (n : Z) : string :=
  if (n <? 0)%Z then "-" +:+ positive_string (- n) else positive_string n.

Global Arguments number_string : simpl never.

(** The string the store client sends for a value: the empty string for
    [null], [String(value)] otherwise; an array is its elements joined by
    commas.  (A client that throws on a value is a call to the store that
    rejects, [redis_down].) *)
Fixpoint to_arg (v : json) : string :=
  match v with
  | JNull => ""
  | JBool true => "true"
  | JBool false => "false"
  | JNum n => number_string n
  | JStr s => s
  | JArr items =>
      (fix join (l : list json) : string :=
         match l with
         | [] => ""
         | x :: rest =>
             match rest with
             | [] => to_arg x
             | _ :: _ => to_arg x +:+ "," +:+ join rest
             end
         end) items
  | JObj _ => "[object Object]"
  end.

(** ** The store *)

(** A Redis hash: fields and their values, all strings. *)
Abbreviation hash := (list (string * string)).

(** [HSET]: an existing field takes the new value, a new one is added. *)
Fixpoint hset (field value : string) (h : hash) : hash :=
  match h with
  | [] => [(field, value)]
  | (f, v) :: rest =>
      if decide (f = field) then (f, value) :: rest else (f, v) :: hset field value rest
  end.

(** A hash as the client returns it: an object whose values are strings. *)
Definition as_object (h : hash) : object := (λ fv, (fv.1, JStr fv.2)) <$> h.

(** The Redis keyspace the service uses: the counter [message_id] and one
    hash per message. *)
Record redis : Type := {
  message_id : Z;
  hashes : gmap string hash;
}.

(** [redis.incr('message_id')]: the store after the call, and its result.
    Redis counts in integers; the client hands the new value back as a
    JavaScript number.  (An INCR at the top of Redis's 64-bit range is a
    call that rejects, [redis_down].) *)
Definition incr (r : redis) : redis * Z :=
  ({| message_id := message_id r + 1; hashes := hashes r |},
   js_number (message_id r + 1)).

(** [redis.hgetall(key)]: an object without properties when there is no
    such key. *)
Definition hgetall (key : string) (r : redis) : object :=
  as_object (default [] (hashes r !! key)).

(** [redis.hmset(key, fields)] sets the listed fields and no other; the
    store keeps each value as the string the client sends for it. *)
Definition hmset (key : string) (fields : object) (r : redis) : redis :=
  {| message_id := message_id r;
     hashes := <[key := foldl (λ h f, hset f.1 (to_arg f.2) h)
                          (default [] (hashes r !! key)) fields]>
                 (hashes r) |}.

Definition exists_key (key : string) (r : redis) : bool :=
  bool_decide (is_Some (hashes r !! key)).

(** [redis.del(key)]: the store after the call, and the number of keys
    removed. *)
Definition del (key : string) (r : redis) : redis * Z :=
  ({| message_id := message_id r; hashes := delete key (hashes r) |},
   if exists_key key r then 1%Z else 0%Z).

(** [`message:${id}`]. *)
Definition message_key (id : string) : string := "message:" +:+ id.

(** ** The HTTP message service *)

Record response : Type := {
  status : nat;
  body : json;
}.

Record server : Type := {
  store : redis;
  ws_hub : hub;
  sockets : list conn;   (* the connections whose handlers are attached *)
}.

Definition with_store (r : redis) (s : server) : server :=
  {| store := r; ws_hub := ws_hub s; sockets := sockets s |}.

Definition error_body (msg : string) : json := JObj [("error", JStr msg)].

Definition internal_error : response :=
  {| status := 500; body := error_body "Internal server error" |}.

(** The record [createMessage] builds, stores and returns. *)
Definition messageData (id : Z) (sender_id receiver_id content : json)
    (timestamp : string) : object :=
  [("id", JNum id); ("sender_id", sender_id); ("receiver_id", receiver_id);
   ("content", content); ("created_at", JStr timestamp); ("updated_at", JNull)].

Definition createMessage (e : env) (sender_id receiver_id content : json)
    (r : redis) : redis * object :=
  let '(r1, id) := incr r in
  let data := messageData id sender_id receiver_id content (now e) in
  (hmset (message_key (number_string id)) data r1, data).

(** The event [{type, data}] handed to [broadcast]. *)
Definition event_of (type : string) (data : json) : json :=
  JObj [("type", JStr type); ("data", data)].

(** [app.post('/messages', ...)] on request body [req_body]. *)
Definition post_messages (e : env) (req_body : object) (s : server)
  : response * server * list effect :=
  let missing :=
    ({| status := 400;
        body := error_body "sender_id, receiver_id, and content are required" |},
     s, []) in
  match get_prop "sender_id" req_body, get_prop "receiver_id" req_body,
        get_prop "content" req_body with
  | Some sender_id, Some receiver_id, Some content =>
      if negb (truthy (Some sender_id)) || negb (truthy (Some receiver_id))
         || negb (truthy (Some content))
      then missing
      else if redis_down e then (internal_error, s, [LogError "error"])
      else
        let '(r, data) := createMessage e sender_id receiver_id content (store s) in
        let '(es, c) := broadcast e (event_of "new_message" (JObj data))
                          (clients (ws_hub s)) in
        match c with
        | Returns =>
            ({| status := 201;
                body := JObj [("message", JStr "Message created"); ("data", JObj data)] |},
             with_store r s, es)
        | Throws => (internal_error, with_store r s, es ++ [LogError "error"])
        end
  | _, _, _ => missing   (* an undefined field is falsy *)
  end.

Definition updateMessageById (e : env) (id : string) (content : json)
    (r : redis) : redis * object :=
  let r1 := hmset (message_key id) [("content", content); ("updated_at", JStr (now e))] r in
  (r1, hgetall (message_key id) r1).

(** [app.put('/messages/:id', ...)]. *)
Definition put_message (e : env) (id : string) (req_body : object) (s : server)
  : response * server * list effect :=
  match get_prop "content" req_body with
  | Some content =>
      if negb (truthy (Some content))
      then ({| status := 400; body := error_body "Content is required" |}, s, [])
      else if redis_down e then (internal_error, s, [LogError "error"])
      else if negb (exists_key (message_key id) (store s))
      then ({| status := 404; body := error_body "Message not found" |}, s, [])
      else
        let '(r, updatedMessage) := updateMessageById e id content (store s) in
        let '(es, c) := broadcast e (event_of "update_message" (JObj updatedMessage))
                          (clients (ws_hub s)) in
        match c with
        | Returns =>
            ({| status := 200;
                body := JObj [("message", JStr "Message updated");
                              ("data", JObj updatedMessage)] |},
             with_store r s, es)
        | Throws => (internal_error, with_store r s, es ++ [LogError "error"])
        end
  | None => ({| status := 400; body := error_body "Content is required" |}, s, [])
  end.

(** [app.delete('/messages/:id', ...)]. *)
Definition delete_message (e : env) (id : string) (s : server)
  : response * server * list effect :=
  if redis_down e then (internal_error, s, [LogError "error"])
  else
    let '(r, result) := del (message_key id) (store s) in
    if (result =? 0)%Z
    then ({| status := 404; body := error_body "Message not found" |}, with_store r s, [])
    else
      let '(es, c) := broadcast e (event_of "delete_message" (JObj [("id", JStr id)]))
                        (clients (ws_hub s)) in
      match c with
      | Returns =>
          ({| status := 200; body := JObj [("message", JStr "Message deleted")] |},
           with_store r s, es)
      | Throws => (internal_error, with_store r s, es ++ [LogError "error"])
      end.

(** ** The server as a transition system *)

Inductive event : Type :=
  | Connection (ws : conn)               (* wss.on('connection') *)
  | Message (ws : conn) (message : frame)
  | Close (ws : conn)
  | POST (req_body : object)
  | PUT (id : string) (req_body : object)
  | DELETE (id : string).

Definition with_hub (h : hub) (s : server) : server :=
  {| store := store s; ws_hub := h; sockets := sockets s |}.

(** One event of the loop.  The socket handlers of [ws] exist from its
    [connection] event to its [close] event. *)
Definition step (e : env) (ev : event) (s : server) : server * list effect :=
  match ev with
  | Connection ws =>
      if decide (ws ∈ sockets s) then (s, [])
      else ({| store := store s; ws_hub := ws_hub s; sockets := sockets s ++ [ws] |}, [])
  | Message ws message =>
      if decide (ws ∈ sockets s)
      then let '(h, es) := on_message e ws message (ws_hub s) in (with_hub h s, es)
      else (s, [])
  | Close ws =>
      if decide (ws ∈ sockets s)
      then ({| store := store s; ws_hub := on_close ws (ws_hub s);
               sockets := filter (λ c, c ≠ ws) (sockets s) |}, [])
      else (s, [])
  | POST req_body => let '(_, s', es) := post_messages e req_body s in (s', es)
  | PUT id req_body => let '(_, s', es) := put_message e id req_body s in (s', es)
  | DELETE id => let '(_, s', es) := delete_message e id s in (s', es)
  end.

(** A run: the events in order, each in its own environment; the state
    reached and everything emitted on the way. *)
Fixpoint run (trace : list (env * event)) (s : server) : server * list effect :=
  match trace with
  | [] => (s, [])
  | (e, ev) :: rest =>
      let '(s1, es1) := step e ev s in
      let '(s2, es2) := run rest s1 in
      (s2, es1 ++ es2)
  end.

Definition init : server :=
  {| store := {| message_id := 0%Z; hashes := ∅ |};
     ws_hub := {| clients := []; next_ref := 0 |};
     sockets := [] |}.

(** An environment in which nothing fails. *)
Definition calm (timestamp : string) : env :=
  {| send_throws := λ _, false; now := timestamp; redis_down := false |}.

(** ** Predicates of the statements *)

(** The type of a frame, as the handler reads it: only an object has one. *)
Definition type_of (message : frame) : option json :=
  match message with
  | Parsed (JObj parsedMessage) => get_prop "type" parsedMessage
  | _ => None
  end.

(** The [userKey] of a frame, read the same way. *)
Definition userKey_of (message : frame) : option json :=
  match message with
  | Parsed (JObj parsedMessage) => get_prop "userKey" parsedMessage
  | _ => None
  end.

(** The types the handler acts on. *)
Definition recognised (type : option json) : bool :=
  is_str type "register" || is_signal type.

(** The send on the connection of this entry does not throw. *)
Definition delivers (e : env) (entry : mapkey * conn) : Prop :=
  send_throws e entry.2 = false.

(** What holds of the registry in every state the server reaches: keys
    are distinct, every registered connection is open, and every object
    key was allocated before the next one to come. *)
Definition hub_inv (s : server) : Prop :=
  Map_wf (clients (ws_hub s))
  ∧ (∀ k c, (k, c) ∈ clients (ws_hub s) → c ∈ sockets s)
  ∧ (∀ r c, (KObject r, c) ∈ clients (ws_hub s) → (r < next_ref (ws_hub s))%nat).

(** The events that leave the route from key [k] to connection [c] alone:
    all but a close of [c] and a register frame for [k]. *)
Definition keeps_route (k : string) (c : conn) (ev : event) : bool :=
  match ev with
  | Close ws => bool_decide (ws ≠ c)
  | Message _ message =>
      negb (is_str (type_of message) "register" && is_str (userKey_of message) k)
  | _ => true
  end.

(** Key [k] routes to connection [c]. *)
Definition routed (k : string) (c : conn) (s : server) : Prop :=
  Map_wf (clients (ws_hub s)) ∧ Map_get (KStr k) (clients (ws_hub s)) = Some c.

(** Timestamps are the strings of [toISOString]: UTC, fixed width, most
    significant field first, so that the order of the instants is the order
    of the strings. *)
Definition stamp_le (t u : string) : Prop := String.leb t u = true.

(** No message of the store carries a [created_at] or [updated_at] after
    [t]. *)
Definition stamps_le (r : redis) (t : string) : Prop :=
  ∀ key f u,
    f = "created_at" ∨ f = "updated_at" →
    get_prop f (hgetall key r) = Some (JStr u) → stamp_le u t.

(** The clock never goes back along the trace: each event reads an
    instant not before the one read by the event before it, the first one
    not before [t]. *)
Fixpoint clock_monotone (t : string) (trace : list (env * event)) : Prop :=
  match trace with
  | [] => True
  | (e, _) :: rest => stamp_le t (now e) ∧ clock_monotone (now e) rest
  end.

(** The last reading of the trace, [t] if there is none. *)
Fixpoint last_clock (t : string) (trace : list (env * event)) : string :=
  match trace with
  | [] => t
  | (e, _) :: rest => last_clock (now e) rest
  end.

(** ** Scenarios *)

(** Noon; nothing fails. *)
Definition quiet : env := calm "2024-01-01T12:00:00.000Z".

(** The send on connection 2 throws; elsewhere it succeeds. *)
Definition second_fails : env :=
  {| send_throws := λ c, bool_decide (c = 2%nat);
     now := "2024-01-01T12:00:00.000Z"; redis_down := false |}.

Definition register_frame (userKey : string) : object :=
  [("type", JStr "register"); ("userKey", JStr userKey)].

(** An offer from u2 to u1 with a payload of the caller's. *)
Definition offer_frame : object :=
  [("type", JStr "offer"); ("userKey", JStr "u2"); ("target", JStr "u1");
   ("sdp", JStr "v=0")].

(** An offer from u2 to u1 that claims another sender. *)
Definition forged_offer : object :=
  [("type", JStr "offer"); ("userKey", JStr "u2"); ("target", JStr "u1");
   ("sender", JStr "someone-else")].

(** u2 calls u3, who never registered. *)
Definition offer_to_stranger : object :=
  [("type", JStr "offer"); ("userKey", JStr "u2"); ("target", JStr "u3")].

(** Connections 1 and 2 are open; 1 registered as u1. *)
Definition two_peers : server :=
  (run [(quiet, Connection 1%nat); (quiet, Connection 2%nat);
        (quiet, Message 1%nat (Parsed (JObj (register_frame "u1"))))] init).1.

(** Connection 1 is registered as a and as c, connection 2 as b. *)
Definition shared_registry : hub :=
  {| clients := [(KStr "a", 1%nat); (KStr "b", 2%nat); (KStr "c", 1%nat)];
     next_ref := 0 |}.

Definition three_clients : Map :=
  [(KStr "a", 1%nat); (KStr "b", 2%nat); (KStr "c", 3%nat)].

Definition hi_body : object :=
  [("sender_id", JStr "u1"); ("receiver_id", JStr "u2"); ("content", JStr "hi")].

(** ** The rest of the service: reading one message, seeding the store *)

(** [app.get('/messages/:id', ...)]: [hgetall] gives an object without
    properties for a key that does not exist.  The handler writes nothing
    and sends nothing. *)
Definition get_message (e : env) (id : string) (s : server) : response * list effect :=
  if redis_down e then (internal_error, [LogError "error"])
  else
    let message := hgetall (message_key id) (store s) in
    if (length message =? 0)%nat
    then ({| status := 404; body := error_body "Message not found" |}, [])
    else ({| status := 200; body := JObj message |}, []).

(** [redis.keys('message:*')]: the keys that start with [message:].  The
    order in which Redis lists them is not specified; the code only counts
    them. *)
Definition message_keys (r : redis) : list string :=
  filter (λ key, String.prefix "message:" key = true) (map_to_list (hashes r)).*1.

(** The [defaultMessages] of [initializeMessages]: sender, receiver and
    content. *)
Definition defaultMessages : list (json * json * json) :=
  [(JStr "user_one", JStr "user_two", JStr "Hey whats up!");
   (JStr "user_two", JStr "user_one", JStr "Hi there, this chat is amazing!")].

(** The loop of [initializeMessages] from its [i]-th round on; round [i]
    reads the clock as [clock i]. *)
Fixpoint seed (i : nat) (clock : nat → string) (msgs : list (json * json * json))
    (r : redis) : redis :=
  match msgs with
  | [] => r
  | (sender_id, receiver_id, content) :: rest =>
      let '(r1, id) := incr r in
      seed (S i) clock rest
        (hmset (message_key (number_string id))
           (messageData id sender_id receiver_id content (clock i)) r1)
  end.

(** [initializeMessages()], run when the server starts to listen; [down]
    says that the calls to the store reject. *)
Definition initializeMessages (down : bool) (clock : nat → string) (r : redis)
  : redis * list effect :=
  if down then (r, [LogError "Error initializing messages:"])
  else if (length (message_keys r) =? 0)%nat
  then (seed 0 clock defaultMessages r, [])
  else (r, []).

(** The [id] of the record in the body of a response. *)
Definition created_id (res : response) : option Z :=
  match body res with
  | JObj o =>
      match get_prop "data" o with
      | Some (JObj data) =>
          match get_prop "id" data with
          | Some (JNum id) => Some id
          | _ => None
          end
      | _ => None
      end
  | _ => None
  end.

(** The record in the body of a response. *)
Definition response_data (res : response) : option json :=
  match body res with
  | JObj o => get_prop "data" o
  | _ => None
  end.

(** The events other than a register frame from connection [c]. *)
Definition no_register_from (c : conn) (ev : event) : bool :=
  match ev with
  | Message ws message =>
      negb (bool_decide (ws = c) && is_str (type_of message) "register")
  | _ => true
  end.

(** The events of the HTTP side. *)
Definition is_http (ev : event) : bool :=
  match ev with
  | POST _ | PUT _ _ | DELETE _ => true
  | _ => false
  end.

(** ** Earlier versions of the handlers kept in the repository *)

(** The message handler before the relay was added (server.js, second
    version): it only registers. *)
Definition on_message_registering (ws : conn) (message : frame) (h : hub)
  : hub * list effect :=
  match message with
  | Malformed => (h, [LogError "Error parsing message:"])
  | Parsed JNull => (h, [LogError "Error parsing message:"])
  | Parsed (JObj parsedMessage) =>
      if is_str (get_prop "type" parsedMessage) "register" then
        let userKey := get_prop "userKey" parsedMessage in
        ({| clients := Map_set (key_of (next_ref h) userKey) ws (clients h);
            next_ref := if by_reference userKey then S (next_ref h) else next_ref h |},
         [])
      else (h, [])
  | Parsed _ => (h, [])
  end.

(** [app.post('/messages', ...)] of the service before it had sockets: it
    stores the record and answers, and notifies nobody. *)
Definition post_messages_silent (e : env) (req_body : object) (s : server)
  : response * server :=
  let missing :=
    ({| status := 400;
        body := error_body "sender_id, receiver_id, and content are required" |}, s) in
  match get_prop "sender_id" req_body, get_prop "receiver_id" req_body,
        get_prop "content" req_body with
  | Some sender_id, Some receiver_id, Some content =>
      if negb (truthy (Some sender_id)) || negb (truthy (Some receiver_id))
         || negb (truthy (Some content))
      then missing
      else if redis_down e then (internal_error, s)
      else
        let '(r1, id) := incr (store s) in
        let data := messageData id sender_id receiver_id content (now e) in
        ({| status := 201;
            body := JObj [("message", JStr "Message created"); ("data", JObj data)] |},
         with_store (hmset (message_key (number_string id)) data r1) s)
  | _, _, _ => missing
  end.

(** ** Objects: reading after writing *)

Section object_facts.
Implicit Types (o : object) (name f : string) (v : json).

Lemma get_set_prop_eq name v o : get_prop name (set_prop name v o) = Some v.
Proof.
  induction o as [|[k w] o IH]; simpl.
  - by rewrite decide_True.
  - destruct (decide (k = name)) as [->|Hk]; simpl.
    + by rewrite decide_True.
    + by rewrite decide_False.
Qed.

Lemma get_set_prop_ne name f v o :
  f ≠ name → get_prop f (set_prop name v o) = get_prop f o.
Proof.
  intros Hf. induction o as [|[k w] o IH]; simpl.
  - by rewrite decide_False.
  - destruct (decide (k = name)) as [->|Hk]; simpl.
    + by rewrite !decide_False.
    + destruct (decide (k = f)); [done | apply IH].
Qed.

Lemma get_del_prop_eq name o : get_prop name (del_prop name o) = None.
Proof.
  induction o as [|[k w] o IH]; simpl; [done|].
  destruct (decide (k = name)) as [->|Hk]; simpl; [done|].
  by rewrite decide_False.
Qed.

Lemma get_del_prop_ne name f o :
  f ≠ name → get_prop f (del_prop name o) = get_prop f o.
Proof.
  intros Hf. induction o as [|[k w] o IH]; simpl; [done|].
  destruct (decide (k = name)) as [->|Hk]; simpl.
  - by rewrite decide_False.
  - destruct (decide (k = f)); [done | apply IH].
Qed.

(** The relayed object carries the frame's [userKey] as [sender]... *)
Lemma relayed_sender o : get_prop "sender" (relayed o) = get_prop "userKey" o.
Proof.
  unfold relayed. destruct (get_prop "userKey" o) as [u|].
  - apply get_set_prop_eq.
  - apply get_del_prop_eq.
Qed.

(** ... and every other property as the frame has it. *)
Lemma relayed_other f o : f ≠ "sender" → get_prop f (relayed o) = get_prop f o.
Proof.
  intros Hf. unfold relayed. destruct (get_prop "userKey" o) as [u|].
  - by apply get_set_prop_ne.
  - by apply get_del_prop_ne.
Qed.
End object_facts.

(** ** The Map of clients: lookups, keys and deletion *)

Section map_facts.
Implicit Types (m pre : Map) (k : mapkey) (c ws : conn).

Lemma Map_get_set_eq k c m : Map_get k (Map_set k c m) = Some c.
Proof.
  induction m as [|[k' c'] m IH]; csimpl.
  - by rewrite decide_True.
  - destruct (decide (k' = k)) as [->|Hk]; csimpl.
    + by rewrite decide_True.
    + by rewrite decide_False.
Qed.

Lemma Map_get_set_ne k k0 c m : k0 ≠ k → Map_get k0 (Map_set k c m) = Map_get k0 m.
Proof.
  intros Hne. induction m as [|[k' c'] m IH]; csimpl.
  - by rewrite decide_False.
  - destruct (decide (k' = k)) as [->|Hk]; csimpl.
    + by rewrite !decide_False.
    + destruct (decide (k' = k0)); [done | apply IH].
Qed.

Lemma Map_get_Some k c m : Map_get k m = Some c → (k, c) ∈ m.
Proof.
  induction m as [|[k' c'] m IH]; csimpl; [done|].
  destruct (decide (k' = k)) as [->|Hk].
  - intros [= ->]. left.
  - intros H. right. by apply IH.
Qed.

Lemma Map_get_None k m : Map_get k m = None ↔ k ∉ m.*1.
Proof.
  induction m as [|[k' c'] m IH]; csimpl.
  - split; [intros _; apply not_elem_of_nil | done].
  - rewrite not_elem_of_cons. destruct (decide (k' = k)) as [->|Hk].
    + split; [done | by intros [? _]].
    + rewrite IH. split; [by intros ? | by intros [_ ?]].
Qed.

Lemma Map_get_elem_of k c m : Map_wf m → (k, c) ∈ m → Map_get k m = Some c.
Proof.
  unfold Map_wf. induction m as [|[k' c'] m IH]; csimpl.
  - intros _ H. by apply elem_of_nil in H.
  - rewrite NoDup_cons. intros [Hk' Hm] [[= -> ->]|Hin]%elem_of_cons.
    + by rewrite decide_True.
    + rewrite decide_False; [by apply IH|].
      intros ->. apply Hk'. apply list_elem_of_fmap. by exists (k, c).
Qed.

Lemma Map_set_keys k c m :
  (Map_set k c m).*1 = if decide (k ∈ m.*1) then m.*1 else m.*1 ++ [k].
Proof.
  induction m as [|[k' c'] m IH]; csimpl.
  - done.
  - destruct (decide (k' = k)) as [->|Hk]; csimpl.
    + rewrite decide_True; [done | left].
    + rewrite IH. destruct (decide (k ∈ m.*1)) as [Hin|Hin].
      * rewrite decide_True; [done | by right].
      * rewrite decide_False; [done|]. rewrite not_elem_of_cons. by split.
Qed.

Lemma Map_set_wf k c m : Map_wf m → Map_wf (Map_set k c m).
Proof.
  unfold Map_wf. intros Hm. rewrite Map_set_keys.
  destruct (decide (k ∈ m.*1)) as [Hin|Hin]; [done|].
  apply NoDup_app. split_and!; [done | | apply NoDup_singleton].
  intros x Hx ->%list_elem_of_singleton. by apply Hin.
Qed.

Lemma Map_set_values c0 k c m :
  c0 ∈ (Map_set k c m).*2 → c0 = c ∨ c0 ∈ m.*2.
Proof.
  induction m as [|[k' c'] m IH]; csimpl.
  - intros [->|H]%elem_of_cons; [by left | by apply elem_of_nil in H].
  - destruct (decide (k' = k)) as [->|Hk]; csimpl.
    + intros [->|H]%elem_of_cons; [by left | right; by right].
    + intros [->|H]%elem_of_cons; [right; left|].
      destruct (IH H) as [?|?]; [by left | right; by right].
Qed.

Lemma Map_delete_notin k m : k ∉ m.*1 → Map_delete k m = m.
Proof.
  induction m as [|[k' c'] m IH]; csimpl; [done|].
  rewrite not_elem_of_cons. intros [Hne Hm].
  rewrite decide_False by done. by rewrite IH.
Qed.

Lemma Map_delete_app k m1 m2 :
  Map_delete k (m1 ++ m2) = Map_delete k m1 ++ Map_delete k m2.
Proof.
  induction m1 as [|[k' c'] m1 IH]; csimpl; [done|].
  destruct (decide (k' = k)); csimpl; by rewrite IH.
Qed.

(** Deleting the key of an entry of a well-formed map removes that entry
    and no other. *)
Lemma Map_delete_middle k c pre m :
  Map_wf (pre ++ (k, c) :: m) → Map_delete k (pre ++ (k, c) :: m) = pre ++ m.
Proof.
  unfold Map_wf. rewrite fmap_app, fmap_cons. csimpl.
  intros (Hpre & Hdisj & [Hk Hm]%NoDup_cons)%NoDup_app.
  rewrite Map_delete_app. csimpl. rewrite decide_True by done.
  rewrite !Map_delete_notin; [done | done |].
  intros Hin. apply (Hdisj k Hin). left.
Qed.

(** On a well-formed map, the loop of the close handler keeps exactly
    the entries of the other connections, in their order. *)
Lemma close_each_filter ws pre m :
  Map_wf (pre ++ m) →
  close_each ws m (pre ++ m) = pre ++ filter (λ kc, kc.2 ≠ ws) m.
Proof.
  revert pre. induction m as [|[k c] m IH]; intros pre Hwf; csimpl.
  - done.
  - destruct (decide (c = ws)) as [->|Hc].
    + rewrite Map_delete_middle by done.
      rewrite filter_cons_False by (csimpl; auto).
      apply IH. revert Hwf. unfold Map_wf. rewrite !fmap_app, fmap_cons.
      rewrite !NoDup_app, NoDup_cons. intros (? & Hd & ? & ?).
      split_and!; [done | | done]. intros x Hx Hx'. apply (Hd x Hx). by right.
    + rewrite filter_cons_True by done.
      rewrite (cons_middle (k, c) pre m), app_assoc.
      rewrite IH; [by rewrite <- app_assoc | by rewrite <- app_assoc].
Qed.

Lemma filter_other_all ws m :
  ws ∉ m.*2 → filter (λ kc, kc.2 ≠ ws) m = m.
Proof.
  induction m as [|[k c] m IH]; csimpl; [done|].
  rewrite not_elem_of_cons. intros [Hne Hm].
  rewrite filter_cons_True by (simpl; congruence). by rewrite IH.
Qed.

Lemma filter_own_none ws m :
  ws ∉ m.*2 → filter (λ kc, kc.2 = ws) m = [].
Proof.
  induction m as [|[k c] m IH]; csimpl; [done|].
  rewrite not_elem_of_cons. intros [Hne Hm].
  rewrite filter_cons_False by (simpl; congruence). by apply IH.
Qed.

Lemma close_each_all ws m :
  Map_wf m → close_each ws m m = filter (λ kc, kc.2 ≠ ws) m.
Proof. intros Hwf. by apply (close_each_filter ws [] m). Qed.
End map_facts.

(** ** The message router *)

Lemma is_signal_not_register type :
  is_signal type = true → is_str type "register" = false.
Proof.
  destruct type as [[| | |t| |]|]; try done.
  unfold is_str. destruct (String.eqb_spec t "register") as [->|]; done.
Qed.

Lemma with_hub_same s : with_hub (ws_hub s) s = s.
Proof. by destruct s. Qed.

(** What the handler does with a signaling frame: one lookup, at most one
    send. *)
Lemma on_message_signal e ws parsedMessage h :
  is_signal (get_prop "type" parsedMessage) = true →
  on_message e ws (Parsed (JObj parsedMessage)) h =
    (h, match lookup_target (get_prop "target" parsedMessage) (clients h) with
        | Some targetClient =>
            if send_throws e targetClient
            then [LogError "Error parsing message:"]
            else [Send targetClient (JObj (relayed parsedMessage))]
        | None => []
        end).
Proof.
  intros Hsig. unfold on_message.
  rewrite (is_signal_not_register _ Hsig), Hsig.
  destruct (lookup_target _ _) as [t|]; [|done].
  by destruct (send_throws e t).
Qed.

(** A frame that is not a register frame leaves the hub as it is. *)
Lemma on_message_hub_unchanged e ws message h :
  is_str (type_of message) "register" = false →
  (on_message e ws message h).1 = h.
Proof.
  intros Hreg. destruct message as [|[| | | | |parsedMessage]]; try done.
  simpl in *. rewrite Hreg.
  destruct (is_signal _); [|done].
  destruct (lookup_target _ _) as [t|]; [|done].
  by destruct (send_throws e t).
Qed.

(** C3, as amended.  For a signaling frame (offer, answer or candidate)
    whose target is registered, the handler makes one [send], on the
    target's connection and on no other; what it serialises has every
    property of the frame other than [sender] with the frame's value, and
    has [sender] equal to the frame's [userKey], whatever [sender] the frame
    carried.  If that [send] throws, the error is caught and logged and
    nothing is delivered.  The registry is unchanged. *)
Theorem relay_forwards_to_target_only e ws parsedMessage h targetClient :
  is_signal (get_prop "type" parsedMessage) = true →
  lookup_target (get_prop "target" parsedMessage) (clients h) = Some targetClient →
  on_message e ws (Parsed (JObj parsedMessage)) h =
    (h, if send_throws e targetClient
        then [LogError "Error parsing message:"]
        else [Send targetClient (JObj (relayed parsedMessage))])
  ∧ (∀ f, f ≠ "sender" → get_prop f (relayed parsedMessage) = get_prop f parsedMessage)
  ∧ get_prop "sender" (relayed parsedMessage) = get_prop "userKey" parsedMessage.
Proof.
  intros Hsig Htarget. split_and!.
  - by rewrite on_message_signal, Htarget.
  - intros f Hf. by apply relayed_other.
  - apply relayed_sender.
Qed.

Lemma relay_forwards_to_target_only_witness :
  is_signal (get_prop "type" offer_frame) = true
  ∧ lookup_target (get_prop "target" offer_frame) (clients (ws_hub two_peers)) = Some 1%nat
  ∧ on_message quiet 2%nat (Parsed (JObj offer_frame)) (ws_hub two_peers) =
      (ws_hub two_peers,
       [Send 1%nat (JObj [("type", JStr "offer"); ("userKey", JStr "u2");
                          ("target", JStr "u1"); ("sdp", JStr "v=0");
                          ("sender", JStr "u2")])]).
Proof.
  split_and!; [reflexivity | reflexivity |].
  apply (relay_forwards_to_target_only quiet 2%nat offer_frame (ws_hub two_peers) 1%nat);
    reflexivity.
Defined.

(** C3 as stated fails on a frame that has a [sender] property: the copy
    does not carry that property unchanged. *)
Lemma relay_rewrites_caller_sender :
  on_message quiet 2%nat (Parsed (JObj forged_offer)) (ws_hub two_peers) =
    (ws_hub two_peers, [Send 1%nat (JObj (relayed forged_offer))])
  ∧ get_prop "sender" forged_offer = Some (JStr "someone-else")
  ∧ get_prop "sender" (relayed forged_offer) = Some (JStr "u2")
  ∧ get_prop "sender" (relayed forged_offer) ≠ get_prop "sender" forged_offer.
Proof. split_and!; [reflexivity | reflexivity | reflexivity | discriminate]. Qed.

(** C10.  Every frame the relay delivers for a signaling frame is an object
    whose [sender] is the inbound frame's [userKey], also when the inbound
    frame had a [sender] of its own: that value is replaced. *)
Theorem relay_sender_is_userKey e ws parsedMessage h c data :
  is_signal (get_prop "type" parsedMessage) = true →
  Send c data ∈ (on_message e ws (Parsed (JObj parsedMessage)) h).2 →
  ∃ forwarded, data = JObj forwarded
    ∧ get_prop "sender" forwarded = get_prop "userKey" parsedMessage.
Proof.
  intros Hsig. rewrite on_message_signal by done. simpl.
  destruct (lookup_target _ _) as [t|]; [|by intros ?%elem_of_nil].
  destruct (send_throws e t).
  - intros [[=]|?%elem_of_nil]%elem_of_cons; done.
  - intros [[= -> ->]|?%elem_of_nil]%elem_of_cons; [|done].
    exists (relayed parsedMessage). split; [done | apply relayed_sender].
Qed.

Lemma relay_sender_is_userKey_witness :
  is_signal (get_prop "type" forged_offer) = true
  ∧ Send 1%nat (JObj (relayed forged_offer))
      ∈ (on_message quiet 2%nat (Parsed (JObj forged_offer)) (ws_hub two_peers)).2
  ∧ ∃ forwarded, JObj (relayed forged_offer) = JObj forwarded
      ∧ get_prop "sender" forwarded = Some (JStr "u2").
Proof.
  assert (Hin : Send 1%nat (JObj (relayed forged_offer))
      ∈ (on_message quiet 2%nat (Parsed (JObj forged_offer)) (ws_hub two_peers)).2)
    by (vm_compute; left).
  split_and!; [reflexivity | exact Hin |].
  exact (relay_sender_is_userKey quiet 2%nat forged_offer (ws_hub two_peers) 1%nat _
           eq_refl Hin).
Defined.

(** C6.  A signaling frame whose target is the key of no registry entry
    has no effect at all: nothing is sent to anyone (the sender included),
    nothing is logged, and the server state (registry and open sockets) is
    what it was. *)
Theorem unroutable_signal_is_dropped e ws parsedMessage s :
  is_signal (get_prop "type" parsedMessage) = true →
  lookup_target (get_prop "target" parsedMessage) (clients (ws_hub s)) = None →
  on_message e ws (Parsed (JObj parsedMessage)) (ws_hub s) = (ws_hub s, [])
  ∧ step e (Message ws (Parsed (JObj parsedMessage))) s = (s, []).
Proof.
  intros Hsig Hnone.
  assert (Hm : on_message e ws (Parsed (JObj parsedMessage)) (ws_hub s) = (ws_hub s, []))
    by (by rewrite on_message_signal, Hnone).
  split; [done|]. unfold step. rewrite Hm.
  destruct (decide (ws ∈ sockets s)); [by rewrite with_hub_same | done].
Qed.

Lemma unroutable_signal_is_dropped_witness :
  is_signal (get_prop "type" offer_to_stranger) = true
  ∧ lookup_target (get_prop "target" offer_to_stranger) (clients (ws_hub two_peers)) = None
  ∧ step quiet (Message 2%nat (Parsed (JObj offer_to_stranger))) two_peers = (two_peers, []).
Proof.
  split_and!; [reflexivity | reflexivity |].
  apply (unroutable_signal_is_dropped quiet 2%nat offer_to_stranger two_peers); reflexivity.
Defined.

(** C7.  A frame that does not parse, or whose type is none of register,
    offer, answer and candidate, is dropped: no frame is sent to anyone,
    and the server state (registry and open sockets, so the connection
    too) is what it was. *)
Theorem unrecognised_frame_is_dropped e ws message s :
  message = Malformed ∨ recognised (type_of message) = false →
  (on_message e ws message (ws_hub s)).1 = ws_hub s
  ∧ sends (on_message e ws message (ws_hub s)).2 = []
  ∧ (step e (Message ws message) s).1 = s
  ∧ sends (step e (Message ws message) s).2 = [].
Proof.
  intros Hdrop.
  assert (Hrec : recognised (type_of message) = false)
    by (destruct Hdrop as [->|?]; done).
  apply orb_false_iff in Hrec as [Hreg Hsig].
  assert (Hs : sends (on_message e ws message (ws_hub s)).2 = []).
  { destruct message as [|[| | | | |parsedMessage]]; try done.
    simpl in *. by rewrite Hreg, Hsig. }
  pose proof (on_message_hub_unchanged e ws message (ws_hub s) Hreg) as Hh.
  split_and!; [done | done | |]; unfold step;
    destruct (decide (ws ∈ sockets s)); try done;
    destruct (on_message e ws message (ws_hub s)) as [h es]; simpl in *;
    subst; [apply with_hub_same | done].
Qed.

Lemma unrecognised_frame_is_dropped_witness :
  (Parsed (JObj [("type", JStr "ping"); ("userKey", JStr "u2")]) = Malformed
   ∨ recognised (type_of (Parsed (JObj [("type", JStr "ping"); ("userKey", JStr "u2")])))
     = false)
  ∧ (step quiet (Message 2%nat (Parsed (JObj [("type", JStr "ping"); ("userKey", JStr "u2")])))
       two_peers).1 = two_peers.
Proof.
  split; [by right|].
  apply (unrecognised_frame_is_dropped quiet 2%nat
           (Parsed (JObj [("type", JStr "ping"); ("userKey", JStr "u2")])) two_peers).
  by right.
Defined.

(** ** Disconnects *)

(** C8.  On a registry with distinct keys, the close handler of [ws]
    leaves exactly the entries of the other connections, in their order:
    no entry of [ws] remains under any key, every key of another connection
    still maps to it, and when [ws] was registered under no key the
    registry is what it was. *)
Theorem close_removes_own_entries_only ws h :
  Map_wf (clients h) →
  clients (on_close ws h) = filter (λ kc, kc.2 ≠ ws) (clients h)
  ∧ (∀ k, (k, ws) ∉ clients (on_close ws h))
  ∧ (∀ k c, c ≠ ws →
       Map_get k (clients (on_close ws h)) = Some c ↔ Map_get k (clients h) = Some c)
  ∧ (ws ∉ (clients h).*2 → on_close ws h = h).
Proof.
  intros Hwf.
  assert (Heq : clients (on_close ws h) = filter (λ kc, kc.2 ≠ ws) (clients h))
    by (by apply close_each_all).
  assert (Hwf' : Map_wf (clients (on_close ws h))).
  { rewrite Heq. unfold Map_wf.
    eapply sublist_NoDup; [exact Hwf|]. apply fmap_sublist, sublist_filter. }
  split_and!.
  - done.
  - intros k. rewrite Heq, list_elem_of_filter. simpl. by intros [? _].
  - intros k c Hc. split; intros Hget.
    + apply Map_get_elem_of; [done|]. apply Map_get_Some in Hget.
      rewrite Heq, list_elem_of_filter in Hget. by destruct Hget.
    + apply Map_get_elem_of; [done|]. rewrite Heq, list_elem_of_filter.
      split; [done | by apply Map_get_Some].
  - intros Hnot. destruct h as [m n]. unfold on_close. simpl in *. f_equal.
    rewrite close_each_all by done. by apply filter_other_all.
Qed.

Lemma close_removes_own_entries_only_witness :
  Map_wf (clients shared_registry)
  ∧ clients (on_close 1%nat shared_registry) = [(KStr "b", 2%nat)]
  ∧ on_close 3%nat shared_registry = shared_registry.
Proof.
  assert (Hwf : Map_wf (clients shared_registry)).
  { unfold Map_wf. by apply (bool_decide_unpack _). }
  destruct (close_removes_own_entries_only 1%nat shared_registry Hwf) as (H1 & _).
  destruct (close_removes_own_entries_only 3%nat shared_registry Hwf) as (_ & _ & _ & H3).
  split_and!; [exact Hwf | exact H1 | apply H3; by apply (bool_decide_unpack _)].
Defined.

(** ** Reachable states *)

Lemma elem_of_Map_set k0 c0 k c (m : Map) :
  (k0, c0) ∈ Map_set k c m → (k0 = k ∧ c0 = c) ∨ (k0, c0) ∈ m.
Proof.
  induction m as [|[k' c'] m IH]; csimpl.
  - intros [[= -> ->]|H]%elem_of_cons; [by left | by apply elem_of_nil in H].
  - destruct (decide (k' = k)) as [->|Hk].
    + intros [[= -> ->]|H]%elem_of_cons; [by left | right; by right].
    + intros [[= -> ->]|H]%elem_of_cons; [right; left|].
      destruct (IH H) as [?|?]; [by left | right; by right].
Qed.

Lemma on_message_register e ws parsedMessage h :
  is_str (get_prop "type" parsedMessage) "register" = true →
  on_message e ws (Parsed (JObj parsedMessage)) h =
    ({| clients := Map_set (key_of (next_ref h) (get_prop "userKey" parsedMessage))
                     ws (clients h);
        next_ref := if by_reference (get_prop "userKey" parsedMessage)
                    then S (next_ref h) else next_ref h |}, []).
Proof. intros Hreg. unfold on_message. by rewrite Hreg. Qed.

(** A frame is a register frame only if it is an object. *)
Lemma register_is_object message :
  is_str (type_of message) "register" = true →
  ∃ parsedMessage, message = Parsed (JObj parsedMessage).
Proof. destruct message as [|[| | | | |parsedMessage]]; try done. by eexists. Qed.

Lemma key_of_object n x r : key_of n x = KObject r → by_reference x = true ∧ r = n.
Proof. destruct x as [[]|]; simpl; intros [=]; done. Qed.

(** The HTTP handlers read the registry and never write it. *)
Lemma http_keeps_hub e ev s :
  match ev with POST _ | PUT _ _ | DELETE _ => True | _ => False end →
  ws_hub (step e ev s).1 = ws_hub s ∧ sockets (step e ev s).1 = sockets s.
Proof.
  destruct ev as [| | |req_body|id req_body|id]; try done; intros _; simpl.
  - unfold post_messages. repeat case_match; simplify_eq; done.
  - unfold put_message. repeat case_match; simplify_eq; done.
  - unfold delete_message. repeat case_match; simplify_eq; done.
Qed.

Lemma step_hub_inv e ev s : hub_inv s → hub_inv (step e ev s).1.
Proof.
  intros (Hwf & Hopen & Hfresh).
  destruct ev as [ws|ws message|ws|req_body|id req_body|id].
  - simpl. destruct (decide (ws ∈ sockets s)); [done|].
    split_and!; simpl; [done | | done].
    intros k c Hin. apply elem_of_app. left. by eapply Hopen.
  - simpl. destruct (decide (ws ∈ sockets s)) as [Hws|]; [|done].
    destruct (is_str (type_of message) "register") eqn:Hreg.
    + destruct (register_is_object _ Hreg) as [parsedMessage ->]. simpl in Hreg.
      rewrite on_message_register by done.
      split_and!; simpl.
      * by apply Map_set_wf.
      * intros k c [[-> ->]|Hin]%elem_of_Map_set; [done | by eapply Hopen].
      * intros r c [[Hk ->]|Hin]%elem_of_Map_set.
        -- symmetry in Hk. apply key_of_object in Hk as [-> ->]. lia.
        -- specialize (Hfresh r c Hin). destruct (by_reference _); lia.
    + pose proof (on_message_hub_unchanged e ws message (ws_hub s) Hreg) as Hsame.
      destruct (on_message e ws message (ws_hub s)) as [h es]. simpl in *. subst h.
      by rewrite with_hub_same.
  - simpl. destruct (decide (ws ∈ sockets s)); [|done].
    unfold hub_inv. simpl. rewrite (close_each_all ws _ Hwf). split_and!.
    + eapply sublist_NoDup; [exact Hwf|]. apply fmap_sublist, sublist_filter.
    + intros k c [Hc Hin]%list_elem_of_filter. apply list_elem_of_filter.
      split; [done | by eapply Hopen].
    + intros r c [_ Hin]%list_elem_of_filter. by eapply Hfresh.
  - destruct (http_keeps_hub e (POST req_body) s I) as [Hh Hs].
    unfold hub_inv. by rewrite Hh, Hs.
  - destruct (http_keeps_hub e (PUT id req_body) s I) as [Hh Hs].
    unfold hub_inv. by rewrite Hh, Hs.
  - destruct (http_keeps_hub e (DELETE id) s I) as [Hh Hs].
    unfold hub_inv. by rewrite Hh, Hs.
Qed.

Lemma run_hub_inv trace s : hub_inv s → hub_inv (run trace s).1.
Proof.
  revert s. induction trace as [|[e ev] trace IH]; intros s Hs; simpl; [done|].
  pose proof (step_hub_inv e ev s Hs) as H1.
  destruct (step e ev s) as [s1 es1]. specialize (IH s1 H1).
  by destruct (run trace s1) as [s2 es2].
Qed.

Lemma init_hub_inv : hub_inv init.
Proof.
  split_and!; simpl.
  - apply NoDup_nil_2.
  - intros k c H. by apply elem_of_nil in H.
  - intros r c H. by apply elem_of_nil in H.
Qed.

(** C5, as amended.  In every state the server reaches from its start, by
    any sequence of connections, frames, closes and HTTP requests, each
    client key maps to one connection (the keys of the registry are
    pairwise distinct) and every connection in the registry is open.  The
    registry does not bound the number of keys of one connection. *)
Theorem reachable_registry_keys_distinct trace :
  Map_wf (clients (ws_hub (run trace init).1))
  ∧ (∀ k c, (k, c) ∈ clients (ws_hub (run trace init).1) →
            c ∈ sockets (run trace init).1).
Proof.
  destruct (run_hub_inv trace init init_hub_inv) as (Hwf & Hopen & _). by split.
Qed.

(** C5 as stated fails: a connection that registers under two keys holds
    both entries at once. *)
Lemma one_connection_under_two_keys :
  let s := (run [(quiet, Connection 1%nat);
                 (quiet, Message 1%nat (Parsed (JObj (register_frame "a"))));
                 (quiet, Message 1%nat (Parsed (JObj (register_frame "b"))))] init).1 in
  clients (ws_hub s) = [(KStr "a", 1%nat); (KStr "b", 1%nat)]
  ∧ Map_get (KStr "a") (clients (ws_hub s)) = Some 1%nat
  ∧ Map_get (KStr "b") (clients (ws_hub s)) = Some 1%nat
  ∧ KStr "a" ≠ KStr "b".
Proof. split_and!; [reflexivity | reflexivity | reflexivity | discriminate]. Qed.

(** ** Registering a key again *)

Lemma key_of_string n x k : key_of n x = KStr k → is_str x k = true.
Proof.
  destruct x as [[]|]; simpl; intros [=]; subst. apply String.eqb_refl.
Qed.

Lemma step_routed e ev k c s :
  keeps_route k c ev = true → routed k c s → routed k c (step e ev s).1.
Proof.
  intros Hkeep [Hwf Hget].
  destruct ev as [ws|ws message|ws|req_body|id req_body|id].
  - simpl. by destruct (decide (ws ∈ sockets s)).
  - simpl. destruct (decide (ws ∈ sockets s)) as [Hws|]; [|done].
    destruct (is_str (type_of message) "register") eqn:Hreg.
    + destruct (register_is_object _ Hreg) as [parsedMessage ->].
      simpl in Hreg, Hkeep. rewrite Hreg in Hkeep. simpl in Hkeep.
      apply negb_true_iff in Hkeep.
      rewrite on_message_register by done. split; simpl.
      * by apply Map_set_wf.
      * rewrite Map_get_set_ne; [done|].
        intros Heq. symmetry in Heq. apply key_of_string in Heq. congruence.
    + pose proof (on_message_hub_unchanged e ws message (ws_hub s) Hreg) as Hsame.
      destruct (on_message e ws message (ws_hub s)) as [h es]. simpl in *. by subst h.
  - simpl in *. apply bool_decide_eq_true in Hkeep.
    destruct (decide (ws ∈ sockets s)); [|done].
    unfold routed. simpl. rewrite (close_each_all ws _ Hwf).
    assert (Hwf' : Map_wf (filter (λ kc, kc.2 ≠ ws) (clients (ws_hub s)))).
    { eapply sublist_NoDup; [exact Hwf|]. apply fmap_sublist, sublist_filter. }
    split; [done|]. apply Map_get_elem_of; [done|].
    apply list_elem_of_filter. split; [simpl; congruence | by apply Map_get_Some].
  - destruct (http_keeps_hub e (POST req_body) s I) as [Hh _].
    unfold routed. by rewrite Hh.
  - destruct (http_keeps_hub e (PUT id req_body) s I) as [Hh _].
    unfold routed. by rewrite Hh.
  - destruct (http_keeps_hub e (DELETE id) s I) as [Hh _].
    unfold routed. by rewrite Hh.
Qed.

Lemma run_routed trace k c s :
  Forall (λ ev, keeps_route k c ev.2 = true) trace →
  routed k c s → routed k c (run trace s).1.
Proof.
  revert s. induction trace as [|[e ev] trace IH]; intros s Hall Hs; simpl; [done|].
  apply Forall_cons in Hall as [Hev Hall]. simpl in Hev.
  pose proof (step_routed e ev k c s Hev Hs) as H1.
  destruct (step e ev s) as [s1 es1]. specialize (IH s1 Hall H1).
  by destruct (run trace s1) as [s2 es2].
Qed.

(** A register frame from an open connection, seen from the server. *)
Lemma step_register e ws parsedMessage k s :
  ws ∈ sockets s →
  is_str (get_prop "type" parsedMessage) "register" = true →
  get_prop "userKey" parsedMessage = Some (JStr k) →
  (step e (Message ws (Parsed (JObj parsedMessage))) s).1 =
    with_hub {| clients := Map_set (KStr k) ws (clients (ws_hub s));
                next_ref := next_ref (ws_hub s) |} s.
Proof.
  intros Hws Hreg Hkey. unfold step. rewrite decide_True by done.
  rewrite on_message_register by done. by rewrite Hkey.
Qed.

(** C4.  Let key [k] be registered from connection [c1] and then from a
    different connection [c2].  After the first registration [k] routes to
    [c1]; after the second, and after any later events other than a close
    of [c2] or a new registration of [k], it routes to [c2]: a signaling
    frame with target [k], from whatever connection, causes one [send], on
    [c2], and [c1] receives nothing. *)
Theorem later_registration_wins k c1 c2 s e1 e2 reg1 reg2 later e ws signal :
  Map_wf (clients (ws_hub s)) →
  c1 ∈ sockets s → c2 ∈ sockets s → c1 ≠ c2 →
  is_str (get_prop "type" reg1) "register" = true →
  get_prop "userKey" reg1 = Some (JStr k) →
  is_str (get_prop "type" reg2) "register" = true →
  get_prop "userKey" reg2 = Some (JStr k) →
  Forall (λ ev, keeps_route k c2 ev.2 = true) later →
  is_signal (get_prop "type" signal) = true →
  get_prop "target" signal = Some (JStr k) →
  let s1 := (step e1 (Message c1 (Parsed (JObj reg1))) s).1 in
  let s2 := (step e2 (Message c2 (Parsed (JObj reg2))) s1).1 in
  let s3 := (run later s2).1 in
  let es := (on_message e ws (Parsed (JObj signal)) (ws_hub s3)).2 in
  Map_get (KStr k) (clients (ws_hub s1)) = Some c1
  ∧ Map_get (KStr k) (clients (ws_hub s3)) = Some c2
  ∧ es = (if send_throws e c2 then [LogError "Error parsing message:"]
          else [Send c2 (JObj (relayed signal))])
  ∧ received c1 es = [].
Proof.
  intros Hwf Hc1 Hc2 Hne Hr1 Hk1 Hr2 Hk2 Hlater Hsig Htarget s1 s2 s3 es.
  assert (Hs1 : s1 = with_hub {| clients := Map_set (KStr k) c1 (clients (ws_hub s));
                                 next_ref := next_ref (ws_hub s) |} s)
    by (by apply step_register).
  assert (Hs2 : s2 = with_hub {| clients := Map_set (KStr k) c2 (clients (ws_hub s1));
                                 next_ref := next_ref (ws_hub s1) |} s1).
  { apply step_register; [|done..]. by rewrite Hs1. }
  assert (Hroute : routed k c2 s3).
  { apply run_routed; [done|]. rewrite Hs2. split; simpl.
    - apply Map_set_wf. rewrite Hs1. simpl. by apply Map_set_wf.
    - apply Map_get_set_eq. }
  destruct Hroute as [_ Hget].
  assert (Hes : es = if send_throws e c2 then [LogError "Error parsing message:"]
                     else [Send c2 (JObj (relayed signal))]).
  { unfold es. rewrite on_message_signal by done. simpl.
    unfold lookup_target. rewrite Htarget. simpl. by rewrite Hget. }
  split_and!.
  - rewrite Hs1. simpl. apply Map_get_set_eq.
  - done.
  - done.
  - rewrite Hes. destruct (send_throws e c2); [done|].
    unfold received. simpl. by rewrite decide_False.
Qed.

(** Connections 1 and 2 register the key A in turn; meanwhile connection 1
    closes, and connection 3 calls A. *)
Lemma later_registration_wins_witness :
  let s := (run [(quiet, Connection 1%nat); (quiet, Connection 2%nat);
                 (quiet, Connection 3%nat)] init).1 in
  let call := [("type", JStr "offer"); ("userKey", JStr "C"); ("target", JStr "A")] in
  let s1 := (step quiet (Message 1%nat (Parsed (JObj (register_frame "A")))) s).1 in
  let s2 := (step quiet (Message 2%nat (Parsed (JObj (register_frame "A")))) s1).1 in
  let s3 := (run [(quiet, Close 1%nat)] s2).1 in
  Map_get (KStr "A") (clients (ws_hub s1)) = Some 1%nat
  ∧ Map_get (KStr "A") (clients (ws_hub s3)) = Some 2%nat
  ∧ (on_message quiet 3%nat (Parsed (JObj call)) (ws_hub s3)).2
      = [Send 2%nat (JObj (relayed call))]
  ∧ received 1%nat (on_message quiet 3%nat (Parsed (JObj call)) (ws_hub s3)).2 = [].
Proof.
  intros s call.
  apply (later_registration_wins "A" 1%nat 2%nat s quiet quiet
           (register_frame "A") (register_frame "A") [(quiet, Close 1%nat)]
           quiet 3%nat call); try reflexivity.
  - apply NoDup_nil_2.
  - by apply (bool_decide_unpack _).
  - by apply (bool_decide_unpack _).
  - discriminate.
  - by repeat constructor.
Defined.

(** ** The broadcaster *)

(** When no send throws, every entry of the registry gets the event, in
    registry order. *)
Lemma broadcast_all e data (m : Map) :
  Forall (delivers e) m → broadcast e data m = ((λ kc, Send kc.2 data) <$> m, Returns).
Proof.
  induction m as [|[k ws] m IH]; csimpl; [done|].
  intros [Hws Hm]%Forall_cons. unfold delivers in Hws. simpl in Hws.
  by rewrite Hws, IH.
Qed.

(** What one connection receives of a broadcast that completes: one copy
    per entry it holds. *)
Lemma received_broadcast c data (m : Map) :
  received c ((λ kc, Send kc.2 data) <$> m)
  = (λ _, data) <$> filter (λ kc, kc.2 = c) m.
Proof.
  induction m as [|[k ws] m IH]; csimpl; [done|].
  fold (received c ((λ kc, Send kc.2 data) <$> m)). rewrite IH.
  destruct (decide (ws = c)) as [->|Hne].
  - by rewrite filter_cons_True.
  - by rewrite filter_cons_False.
Qed.

(** C2, as amended.  [broadcast] sends to the entries of the registry in
    their order and has no handler around a send: when no send throws,
    every entry receives the event and the call returns; when the send of
    one entry throws, the entries before it have received the event, that
    entry and the ones after it have not, and the exception leaves
    [broadcast] to its caller. *)
Theorem broadcast_stops_at_first_failure e data :
  (∀ m : Map, Forall (delivers e) m →
     broadcast e data m = ((λ kc, Send kc.2 data) <$> m, Returns))
  ∧ (∀ (pre : Map) k ws (post : Map),
       Forall (delivers e) pre → send_throws e ws = true →
       broadcast e data (pre ++ (k, ws) :: post)
       = ((λ kc, Send kc.2 data) <$> pre, Throws)).
Proof.
  split; [intros m; apply broadcast_all|].
  intros pre k ws post Hpre Hws.
  induction pre as [|[k' c'] pre IH]; csimpl.
  - by rewrite Hws.
  - apply Forall_cons in Hpre as [Hc' Hpre]. unfold delivers in Hc'. simpl in Hc'.
    by rewrite Hc', IH.
Qed.

Lemma broadcast_stops_at_first_failure_witness :
  Forall (delivers second_fails) [(KStr "a", 1%nat)]
  ∧ send_throws second_fails 2%nat = true
  ∧ broadcast second_fails JNull three_clients = ([Send 1%nat JNull], Throws)
  ∧ Forall (delivers quiet) three_clients
  ∧ broadcast quiet JNull three_clients
    = ([Send 1%nat JNull; Send 2%nat JNull; Send 3%nat JNull], Returns).
Proof.
  assert (H1 : Forall (delivers second_fails) [(KStr "a", 1%nat)])
    by (by repeat constructor).
  assert (H3 : Forall (delivers quiet) three_clients) by (by repeat constructor).
  split_and!; [exact H1 | reflexivity | | exact H3 |].
  - exact (proj2 (broadcast_stops_at_first_failure second_fails JNull)
             [(KStr "a", 1%nat)] (KStr "b") 2%nat [(KStr "c", 3%nat)] H1 eq_refl).
  - exact (proj1 (broadcast_stops_at_first_failure quiet JNull) three_clients H3).
Defined.

(** C2 as stated fails: of three registered connections the second throws,
    and the third, which would have accepted the event, never gets it; the
    call ends by throwing. *)
Lemma one_failure_aborts_the_broadcast :
  send_throws second_fails 1%nat = false
  ∧ send_throws second_fails 3%nat = false
  ∧ broadcast second_fails (event_of "new_message" JNull) three_clients
    = ([Send 1%nat (event_of "new_message" JNull)], Throws)
  ∧ received 3%nat
      (broadcast second_fails (event_of "new_message" JNull) three_clients).1 = [].
Proof. by split_and!. Qed.

(** ** Creating a message *)

(** C1, as amended.  A POST /messages whose [sender_id], [receiver_id]
    and [content] are all truthy, with the store answering and no send
    throwing, is answered 201 with the created record, and the event
    [new_message] with that record as [data] ([id], [sender_id],
    [receiver_id], [content], [created_at], and [updated_at] null) is sent
    once for each entry of the registry: a connection receives one copy
    per key it is registered under, and an open connection under no key
    receives none. *)
Theorem post_notifies_registered_clients e req_body s sender_id receiver_id content :
  get_prop "sender_id" req_body = Some sender_id →
  get_prop "receiver_id" req_body = Some receiver_id →
  get_prop "content" req_body = Some content →
  truthy (Some sender_id) = true →
  truthy (Some receiver_id) = true →
  truthy (Some content) = true →
  redis_down e = false →
  Forall (delivers e) (clients (ws_hub s)) →
  let data :=
    messageData (incr (store s)).2 sender_id receiver_id content (now e) in
  let notice := event_of "new_message" (JObj data) in
  let es := (post_messages e req_body s).2 in
  (post_messages e req_body s).1.1
    = {| status := 201;
         body := JObj [("message", JStr "Message created"); ("data", JObj data)] |}
  ∧ es = (λ kc, Send kc.2 notice) <$> clients (ws_hub s)
  ∧ (∀ c, received c es = (λ _, notice) <$> filter (λ kc, kc.2 = c) (clients (ws_hub s)))
  ∧ (∀ c, c ∉ (clients (ws_hub s)).*2 → received c es = [])
  ∧ get_prop "updated_at" data = Some JNull.
Proof.
  intros Hs Hr Hc Ts Tr Tc Hup Hall data notice es.
  assert (Hpost : post_messages e req_body s =
    ({| status := 201;
        body := JObj [("message", JStr "Message created"); ("data", JObj data)] |},
     with_store (createMessage e sender_id receiver_id content (store s)).1 s,
     (λ kc, Send kc.2 notice) <$> clients (ws_hub s))).
  { unfold post_messages. rewrite Hs, Hr, Hc, Ts, Tr, Tc, Hup. simpl.
    unfold createMessage. simpl.
    by rewrite (broadcast_all e _ _ Hall). }
  assert (Hes : es = (λ kc, Send kc.2 notice) <$> clients (ws_hub s))
    by (unfold es; by rewrite Hpost).
  split_and!.
  - by rewrite Hpost.
  - done.
  - intros c. rewrite Hes. apply received_broadcast.
  - intros c Hc'. rewrite Hes, received_broadcast.
    by rewrite filter_own_none.
  - done.
Qed.

Lemma post_notifies_registered_clients_witness :
  Forall (delivers quiet) (clients (ws_hub two_peers))
  ∧ (post_messages quiet hi_body two_peers).1.1
    = {| status := 201;
         body := JObj [("message", JStr "Message created");
                       ("data", JObj (messageData 1 (JStr "u1") (JStr "u2") (JStr "hi")
                                        "2024-01-01T12:00:00.000Z"))] |}
  ∧ (post_messages quiet hi_body two_peers).2
    = [Send 1%nat
         (event_of "new_message"
            (JObj (messageData 1 (JStr "u1") (JStr "u2") (JStr "hi")
                     "2024-01-01T12:00:00.000Z")))].
Proof.
  assert (Hall : Forall (delivers quiet) (clients (ws_hub two_peers)))
    by (by repeat constructor).
  destruct (post_notifies_registered_clients quiet hi_body two_peers
              (JStr "u1") (JStr "u2") (JStr "hi")
              eq_refl eq_refl eq_refl eq_refl eq_refl eq_refl eq_refl Hall)
    as (H1 & H2 & _).
  split_and!; [exact Hall | exact H1 | exact H2].
Defined.

(** C1 as stated fails: connection 2 is open and under no key, the POST
    is answered 201, and connection 2 receives nothing. *)
Lemma post_skips_unregistered_socket :
  (2%nat ∈ sockets two_peers)
  ∧ (2%nat ∉ (clients (ws_hub two_peers)).*2)
  ∧ status (post_messages quiet hi_body two_peers).1.1 = 201%nat
  ∧ received 2%nat (post_messages quiet hi_body two_peers).2 = [].
Proof.
  split_and!; [| | reflexivity | reflexivity]; by apply (bool_decide_unpack _).
Qed.

(** ** Updating a message *)

Lemma as_object_hset field value (h : hash) :
  as_object (hset field value h) = set_prop field (JStr value) (as_object h).
Proof.
  induction h as [|[f v] h IH]; csimpl; [done|].
  destruct (decide (f = field)); csimpl; [done | by rewrite IH].
Qed.

Lemma as_object_foldl (fields : object) (h : hash) :
  as_object (foldl (λ h f, hset f.1 (to_arg f.2) h) h fields)
  = foldl (λ o f, set_prop f.1 (JStr (to_arg f.2)) o) (as_object h) fields.
Proof.
  revert h. induction fields as [|[f v] fields IH]; intros h; csimpl; [done|].
  by rewrite IH, as_object_hset.
Qed.

(** Reading a hash after [hmset]: the fields written hold the strings
    sent for their values. *)
Lemma hgetall_hmset key fields r :
  hgetall key (hmset key fields r)
  = foldl (λ o f, set_prop f.1 (JStr (to_arg f.2)) o) (hgetall key r) fields.
Proof.
  unfold hgetall, hmset. cbn [hashes]. rewrite lookup_insert_eq. cbn [default].
  apply as_object_foldl.
Qed.

Lemma hgetall_hmset_ne key key' fields r :
  key ≠ key' → hgetall key' (hmset key fields r) = hgetall key' r.
Proof.
  intros Hne. unfold hgetall, hmset. cbn [hashes]. by rewrite lookup_insert_ne.
Qed.

(** The store after a PUT that passes the checks, whether or not the
    broadcast that follows throws. *)
Lemma put_message_store e id req_body s content :
  get_prop "content" req_body = Some content →
  truthy (Some content) = true →
  redis_down e = false →
  exists_key (message_key id) (store s) = true →
  store (put_message e id req_body s).1.2
  = hmset (message_key id) [("content", content); ("updated_at", JStr (now e))] (store s).
Proof.
  intros Hc Tc Hup Hex. unfold put_message. rewrite Hc, Tc, Hup, Hex. simpl.
  unfold updateMessageById.
  by destruct (broadcast e _ (clients (ws_hub s))) as [es []].
Qed.

(** *** The order of timestamps, and the clock along a run *)

Lemma string_compare_trans s1 s2 s3 :
  String.compare s1 s2 ≠ Gt → String.compare s2 s3 ≠ Gt → String.compare s1 s3 ≠ Gt.
Proof.
  revert s2 s3. induction s1 as [|a s1 IH]; intros [|b s2] [|c s3]; simpl; try done.
  unfold Ascii.compare.
  destruct (N.compare_spec (Ascii.N_of_ascii a) (Ascii.N_of_ascii b)) as [Hab|Hab|Hab];
    destruct (N.compare_spec (Ascii.N_of_ascii b) (Ascii.N_of_ascii c)) as [Hbc|Hbc|Hbc];
    destruct (N.compare_spec (Ascii.N_of_ascii a) (Ascii.N_of_ascii c)) as [Hac|Hac|Hac];
    try done; try lia.
  apply IH.
Qed.

Lemma stamp_le_trans t u v : stamp_le t u → stamp_le u v → stamp_le t v.
Proof.
  unfold stamp_le, String.leb. intros H1 H2.
  pose proof (string_compare_trans t u v) as H.
  destruct (String.compare t u); [| |done];
    destruct (String.compare u v); try done;
    destruct (String.compare t v); try done; exfalso; by apply H.
Qed.

Lemma stamp_le_refl t : stamp_le t t.
Proof. by destruct (String.leb_total t t). Qed.

Lemma stamp_le_empty t : stamp_le "" t.
Proof. by destruct t. Qed.

Lemma stamps_le_mono r t t' : stamps_le r t → stamp_le t t' → stamps_le r t'.
Proof.
  intros Hr Ht key f u Hf Hget.
  eapply stamp_le_trans; [by eapply Hr | done].
Qed.

Lemma stamps_le_hgetall key r t f u :
  stamps_le r t → f = "created_at" ∨ f = "updated_at" →
  get_prop f (hgetall key r) = Some (JStr u) → stamp_le u t.
Proof. intros Hr Hf Hget. by eapply Hr. Qed.

Lemma hmset_stamps key fields r t :
  stamps_le r t →
  (∀ f u, f = "created_at" ∨ f = "updated_at" →
     get_prop f (foldl (λ o f, set_prop f.1 (JStr (to_arg f.2)) o)
                   (hgetall key r) fields) = Some (JStr u) →
     stamp_le u t) →
  stamps_le (hmset key fields r) t.
Proof.
  intros Hr Hnew key' f u Hf Hget.
  destruct (decide (key = key')) as [<-|Hne].
  - rewrite hgetall_hmset in Hget. by eapply Hnew.
  - rewrite hgetall_hmset_ne in Hget by done. by eapply Hr.
Qed.

(** The store after each request: untouched, or written once. *)
Lemma post_messages_store e req_body s :
  store (post_messages e req_body s).1.2 = store s
  ∨ ∃ sender_id receiver_id content,
      store (post_messages e req_body s).1.2
      = (createMessage e sender_id receiver_id content (store s)).1.
Proof.
  unfold post_messages.
  destruct (get_prop "sender_id" req_body) as [a|]; [|by left].
  destruct (get_prop "receiver_id" req_body) as [b|]; [|by left].
  destruct (get_prop "content" req_body) as [c|]; [|by left].
  destruct (negb _ || _ || _); [by left|].
  destruct (redis_down e); [by left|].
  right. exists a, b, c.
  destruct (createMessage e a b c (store s)) as [r data].
  by destruct (broadcast e _ (clients (ws_hub s))) as [es []].
Qed.

Lemma put_message_store_cases e id req_body s :
  store (put_message e id req_body s).1.2 = store s
  ∨ ∃ content,
      store (put_message e id req_body s).1.2
      = hmset (message_key id) [("content", content); ("updated_at", JStr (now e))]
          (store s).
Proof.
  unfold put_message.
  destruct (get_prop "content" req_body) as [c|]; [|by left].
  destruct (negb (truthy (Some c))); [by left|].
  destruct (redis_down e); [by left|].
  destruct (negb (exists_key _ _)); [by left|].
  right. exists c. unfold updateMessageById.
  by destruct (broadcast e _ (clients (ws_hub s))) as [es []].
Qed.

Lemma delete_message_store e id s :
  store (delete_message e id s).1.2 = store s
  ∨ store (delete_message e id s).1.2 = (del (message_key id) (store s)).1.
Proof.
  unfold delete_message.
  destruct (redis_down e); [by left|]. right. simpl.
  destruct (_ =? _)%Z; [done|].
  by destruct (broadcast e _ (clients (ws_hub s))) as [es []].
Qed.

(** An event that reads the clock at or after [t] leaves no stamp after
    its own reading. *)
Lemma step_stamps e ev s t :
  stamps_le (store s) t → stamp_le t (now e) →
  stamps_le (store (step e ev s).1) (now e).
Proof.
  intros Hs Ht. pose proof (stamps_le_mono _ _ _ Hs Ht) as Hnow.
  destruct ev as [ws|ws message|ws|req_body|id req_body|id]; simpl.
  - by destruct (decide (ws ∈ sockets s)).
  - destruct (decide (ws ∈ sockets s)); [|done].
    by destruct (on_message e ws message (ws_hub s)).
  - by destruct (decide (ws ∈ sockets s)).
  - destruct (post_messages e req_body s) as [[res s'] es] eqn:Hpost.
    destruct (post_messages_store e req_body s) as [Heq|(a & b & c & Heq)];
      rewrite Hpost in Heq; simpl in *; rewrite Heq; [done|].
    unfold createMessage. simpl. apply hmset_stamps.
    + intros key f u. exact (Hnow key f u).
    + intros f u [-> | ->]; simpl.
      * rewrite !get_set_prop_ne by done. rewrite get_set_prop_eq.
        intros [= <-]. apply stamp_le_refl.
      * rewrite get_set_prop_eq. intros [= <-]. apply stamp_le_empty.
  - destruct (put_message e id req_body s) as [[res s'] es] eqn:Hput.
    destruct (put_message_store_cases e id req_body s) as [Heq|(c & Heq)];
      rewrite Hput in Heq; simpl in *; rewrite Heq; [done|].
    apply hmset_stamps; [done|].
    intros f u [-> | ->]; simpl.
    + rewrite !get_set_prop_ne by done. by apply stamps_le_hgetall; [|left].
    + rewrite get_set_prop_eq. intros [= <-]. apply stamp_le_refl.
  - destruct (delete_message e id s) as [[res s'] es] eqn:Hdel.
    destruct (delete_message_store e id s) as [Heq|Heq];
      rewrite Hdel in Heq; simpl in *; rewrite Heq; [done|].
    intros key f u Hf. unfold hgetall. simpl.
    destruct (decide (message_key id = key)) as [<-|Hne].
    + by rewrite lookup_delete_eq.
    + rewrite lookup_delete_ne by done. by apply Hnow.
Qed.

Lemma run_stamps trace s t :
  stamps_le (store s) t → clock_monotone t trace →
  stamps_le (store (run trace s).1) (last_clock t trace).
Proof.
  revert s t. induction trace as [|[e ev] trace IH]; intros s t Hs Hmono; simpl; [done|].
  destruct Hmono as [Ht Hrest].
  pose proof (step_stamps e ev s t Hs Ht) as H1.
  destruct (step e ev s) as [s1 es1]. specialize (IH s1 (now e) H1 Hrest).
  by destruct (run trace s1) as [s2 es2].
Qed.

Lemma clock_monotone_snoc t trace e ev :
  clock_monotone t (trace ++ [(e, ev)]) →
  clock_monotone t trace ∧ stamp_le (last_clock t trace) (now e).
Proof.
  revert t. induction trace as [|[e' ev'] trace IH]; intros t; simpl.
  - by intros [? _].
  - intros [Ht Hrest]. destruct (IH _ Hrest) as [? ?]. by split_and!.
Qed.

(** C9, as amended.  A PUT /messages/:id on an existing message with a
    truthy [content] leaves [created_at], [sender_id], [receiver_id] and
    [id] (and every field other than [content] and [updated_at]) of the
    stored message as they were, stores the string the client sends for the
    new [content], and sets [updated_at] to the clock reading taken by the
    update, which the code compares with nothing.  That reading is not
    before the [created_at] and the [updated_at] the message had whenever
    the clock has never gone back: in every run that reads the clock in
    non-decreasing order, from a store none of whose stamps is after the
    first reading. *)
Theorem update_keeps_created_at e id req_body s content :
  get_prop "content" req_body = Some content →
  truthy (Some content) = true →
  redis_down e = false →
  exists_key (message_key id) (store s) = true →
  let before := hgetall (message_key id) (store s) in
  let after := hgetall (message_key id) (store (put_message e id req_body s).1.2) in
  get_prop "created_at" after = get_prop "created_at" before
  ∧ get_prop "sender_id" after = get_prop "sender_id" before
  ∧ get_prop "receiver_id" after = get_prop "receiver_id" before
  ∧ get_prop "id" after = get_prop "id" before
  ∧ (∀ f, f ≠ "content" → f ≠ "updated_at" → get_prop f after = get_prop f before)
  ∧ get_prop "content" after = Some (JStr (to_arg content))
  ∧ get_prop "updated_at" after = Some (JStr (now e))
  ∧ (∀ t0 s0 trace,
       s = (run trace s0).1 →
       stamps_le (store s0) t0 →
       clock_monotone t0 (trace ++ [(e, PUT id req_body)]) →
       ∀ f t, f = "created_at" ∨ f = "updated_at" →
         get_prop f before = Some (JStr t) → stamp_le t (now e)).
Proof.
  intros Hc Tc Hup Hex before after.
  assert (Hafter : after = set_prop "updated_at" (JStr (now e))
                             (set_prop "content" (JStr (to_arg content)) before)).
  { unfold after. rewrite (put_message_store e id req_body s content) by done.
    by rewrite hgetall_hmset. }
  assert (Hframe : ∀ f, f ≠ "content" → f ≠ "updated_at" →
                        get_prop f after = get_prop f before).
  { intros f H1 H2. rewrite Hafter. by rewrite !get_set_prop_ne. }
  split_and!; try (by apply Hframe).
  - rewrite Hafter, get_set_prop_ne by done. apply get_set_prop_eq.
  - rewrite Hafter. apply get_set_prop_eq.
  - intros t0 s0 trace -> Hs0 Hclock f t Hf Hget.
    apply clock_monotone_snoc in Hclock as [Hmono Hlast].
    eapply stamp_le_trans; [|exact Hlast].
    eapply stamps_le_hgetall; [|exact Hf|exact Hget].
    by apply run_stamps.
Qed.

(** From the empty store: two peers connect, a message is created at
    noon and updated five minutes later. *)
Lemma update_keeps_created_at_witness :
  let trace := [(quiet, Connection 1%nat); (quiet, Connection 2%nat);
                (quiet, POST hi_body)] in
  let e := calm "2024-01-01T12:05:00.000Z" in
  let s := (run trace init).1 in
  let after := hgetall (message_key "1")
                 (store (put_message e "1" [("content", JStr "yo")] s).1.2) in
  clock_monotone "" (trace ++ [(e, PUT "1" [("content", JStr "yo")])])
  ∧ exists_key (message_key "1") (store s) = true
  ∧ get_prop "created_at" after = Some (JStr "2024-01-01T12:00:00.000Z")
  ∧ get_prop "content" after = Some (JStr "yo")
  ∧ get_prop "updated_at" after = Some (JStr "2024-01-01T12:05:00.000Z")
  ∧ stamp_le "2024-01-01T12:00:00.000Z" "2024-01-01T12:05:00.000Z".
Proof.
  intros trace e s after.
  assert (Hempty : stamps_le (store init) "") by (intros key f u Hf; done).
  assert (Hclock : clock_monotone "" (trace ++ [(e, PUT "1" [("content", JStr "yo")])]))
    by (by repeat split).
  destruct (update_keeps_created_at e "1" [("content", JStr "yo")] s
              (JStr "yo") eq_refl eq_refl eq_refl eq_refl)
    as (Hcreated & _ & _ & _ & _ & Hcontent & Hupdated & Hle).
  split_and!; [exact Hclock | reflexivity | exact Hcreated | exact Hcontent
              | exact Hupdated |].
  exact (Hle "" init trace eq_refl Hempty Hclock
           "created_at" "2024-01-01T12:00:00.000Z" (or_introl eq_refl) eq_refl).
Defined.

(** C9 as stated fails: the update takes the wall clock as it finds it.
    A message created at noon on 1 January 2024 and updated when the clock
    reads 1 June 2023 gets an [updated_at] before its [created_at]. *)
Lemma update_with_clock_set_back :
  let s := (run [(quiet, POST hi_body)] init).1 in
  let e := calm "2023-06-01T00:00:00.000Z" in
  let before := hgetall (message_key "1") (store s) in
  let after := hgetall (message_key "1")
                 (store (put_message e "1" [("content", JStr "yo")] s).1.2) in
  exists_key (message_key "1") (store s) = true
  ∧ status (put_message e "1" [("content", JStr "yo")] s).1.1 = 200%nat
  ∧ get_prop "created_at" before = Some (JStr "2024-01-01T12:00:00.000Z")
  ∧ get_prop "created_at" after = Some (JStr "2024-01-01T12:00:00.000Z")
  ∧ get_prop "updated_at" after = Some (JStr "2023-06-01T00:00:00.000Z")
  ∧ ¬ stamp_le "2024-01-01T12:00:00.000Z" "2023-06-01T00:00:00.000Z".
Proof. split_and!; try reflexivity. unfold stamp_le. discriminate. Qed.

(** ** More of the message service *)

Lemma js_number_exact n : (Z.abs n ≤ 2 ^ 53)%Z → js_number n = n.
Proof.
  intros Hn. unfold js_number.
  destruct (decide (Z.abs n = 2 ^ 53)%Z) as [Heq|Hne].
  - assert (n = 2 ^ 53 ∨ n = - 2 ^ 53)%Z as [-> | ->] by lia; reflexivity.
  - assert (Hlt : (Z.abs n < 2 ^ 53)%Z) by lia.
    assert (Hlog : (Z.log2 (Z.abs n) + 1 ≤ 53)%Z).
    { destruct (decide (Z.abs n = 0)%Z) as [-> | Hpos]; [done|].
      assert (Z.log2 (Z.abs n) < 53)%Z; [|lia].
      apply Z.log2_lt_pow2; lia. }
    apply Z.leb_le in Hlog. by rewrite Hlog.
Qed.

Lemma number_string_exact n : (0 ≤ n ≤ 2 ^ 53)%Z → number_string n = pretty n.
Proof.
  intros [H0 Hn]. unfold number_string, positive_string.
  apply Z.ltb_ge in H0. apply Z.leb_le in Hn. by rewrite H0, Hn.
Qed.

Lemma number_string_inj n n' :
  (0 ≤ n ≤ 2 ^ 53)%Z → (0 ≤ n' ≤ 2 ^ 53)%Z →
  number_string n = number_string n' → n = n'.
Proof.
  intros Hn Hn'. rewrite !number_string_exact by done. apply (inj pretty).
Qed.

Lemma foldl_set_prop_fresh f (fields h : object) :
  f ∉ fields.*1 →
  get_prop f (foldl (λ o p, set_prop p.1 (JStr (to_arg p.2)) o) h fields) = get_prop f h.
Proof.
  revert h. induction fields as [|[k w] fields IH]; intros h; csimpl; [done|].
  rewrite not_elem_of_cons. intros [Hne Hf].
  rewrite IH by done. by apply get_set_prop_ne.
Qed.

(** Writing fields with distinct names: each is read back as the string
    sent for it. *)
Lemma foldl_set_prop_written f v (fields h : object) :
  NoDup fields.*1 → get_prop f fields = Some v →
  get_prop f (foldl (λ o p, set_prop p.1 (JStr (to_arg p.2)) o) h fields)
  = Some (JStr (to_arg v)).
Proof.
  revert h. induction fields as [|[k w] fields IH]; intros h; csimpl; [done|].
  rewrite NoDup_cons. intros [Hk Hnd].
  destruct (decide (k = f)) as [->|Hne].
  - intros [= ->]. rewrite foldl_set_prop_fresh by done. apply get_set_prop_eq.
  - intros Hget. by apply IH.
Qed.

Lemma messageData_names id a b c t :
  NoDup (messageData id a b c t).*1.
Proof. by apply (bool_decide_unpack _). Qed.

Lemma get_prop_nonempty f v (o : object) : get_prop f o = Some v → length o ≠ 0%nat.
Proof. by destruct o. Qed.

Lemma broadcast_throws e data (m : Map) :
  Exists (λ kc, send_throws e kc.2 = true) m → (broadcast e data m).2 = Throws.
Proof.
  induction m as [|[k ws] m IH]; csimpl.
  - by intros ?%Exists_nil.
  - intros [Hws|Hm]%Exists_cons; simpl in *.
    + by rewrite Hws.
    + destruct (send_throws e ws); [done|].
      specialize (IH Hm). by destruct (broadcast e data m) as [es c].
Qed.

(** A POST that passes the checks writes the record, whatever becomes of
    the broadcast. *)
Lemma post_messages_writes e req_body s sender_id receiver_id content :
  get_prop "sender_id" req_body = Some sender_id →
  get_prop "receiver_id" req_body = Some receiver_id →
  get_prop "content" req_body = Some content →
  truthy (Some sender_id) = true →
  truthy (Some receiver_id) = true →
  truthy (Some content) = true →
  redis_down e = false →
  store (post_messages e req_body s).1.2
    = (createMessage e sender_id receiver_id content (store s)).1
  ∧ (post_messages e req_body s).1.1
    = match (broadcast e
               (event_of "new_message"
                  (JObj (messageData (incr (store s)).2 sender_id receiver_id
                           content (now e))))
               (clients (ws_hub s))).2 with
      | Returns =>
          {| status := 201;
             body := JObj [("message", JStr "Message created");
                           ("data", JObj (messageData (incr (store s)).2
                                            sender_id receiver_id content (now e)))] |}
      | Throws => internal_error
      end.
Proof.
  intros Hs Hr Hc Ts Tr Tc Hup.
  unfold post_messages. rewrite Hs, Hr, Hc, Ts, Tr, Tc, Hup. simpl.
  unfold createMessage. simpl.
  by destruct (broadcast e _ (clients (ws_hub s))) as [es []].
Qed.

(** X1.  A POST /messages in which [sender_id], [receiver_id] or
    [content] is missing or falsy (null, false, 0, the empty string) is
    answered 400 before the store is called: no id is consumed, nothing is
    stored and nothing is broadcast, also while the store is down. *)
Theorem post_rejects_incomplete_request e req_body s :
  truthy (get_prop "sender_id" req_body) && truthy (get_prop "receiver_id" req_body)
    && truthy (get_prop "content" req_body) = false →
  post_messages e req_body s
  = ({| status := 400;
        body := error_body "sender_id, receiver_id, and content are required" |},
     s, []).
Proof.
  intros Hbad. unfold post_messages.
  destruct (get_prop "sender_id" req_body) as [a|]; [|done].
  destruct (get_prop "receiver_id" req_body) as [b|]; [|done].
  destruct (get_prop "content" req_body) as [c|]; [|done].
  destruct (truthy (Some a)), (truthy (Some b)), (truthy (Some c)); done.
Qed.

Lemma post_rejects_incomplete_request_witness :
  post_messages quiet
    [("sender_id", JStr "u1"); ("receiver_id", JStr "u2"); ("content", JStr "")]
    two_peers
  = ({| status := 400;
        body := error_body "sender_id, receiver_id, and content are required" |},
     two_peers, []).
Proof.
  apply (post_rejects_incomplete_request quiet
           [("sender_id", JStr "u1"); ("receiver_id", JStr "u2"); ("content", JStr "")]
           two_peers).
  reflexivity.
Defined.

(** X2.  The write of a POST comes before its broadcast and is not undone:
    when the request passes the checks and the send on some registered
    connection throws, the answer is 500 although the counter advanced and
    the record is stored under the new id, each field as the string the
    client sends for it. *)
Theorem post_stores_even_if_broadcast_fails e req_body s sender_id receiver_id content :
  get_prop "sender_id" req_body = Some sender_id →
  get_prop "receiver_id" req_body = Some receiver_id →
  get_prop "content" req_body = Some content →
  truthy (Some sender_id) = true →
  truthy (Some receiver_id) = true →
  truthy (Some content) = true →
  redis_down e = false →
  Exists (λ kc, send_throws e kc.2 = true) (clients (ws_hub s)) →
  let id := (incr (store s)).2 in
  let s' := (post_messages e req_body s).1.2 in
  (post_messages e req_body s).1.1 = internal_error
  ∧ message_id (store s') = (message_id (store s) + 1)%Z
  ∧ (∀ f v, get_prop f (messageData id sender_id receiver_id content (now e)) = Some v →
       get_prop f (hgetall (message_key (number_string id)) (store s'))
       = Some (JStr (to_arg v))).
Proof.
  intros Hs Hr Hc Ts Tr Tc Hup Hthrow id s'.
  destruct (post_messages_writes e req_body s sender_id receiver_id content)
    as [Hstore Hres]; try done.
  split_and!.
  - rewrite Hres. by rewrite broadcast_throws.
  - unfold s'. by rewrite Hstore.
  - intros f v Hget. unfold s'. rewrite Hstore. unfold createMessage. simpl.
    rewrite hgetall_hmset. apply foldl_set_prop_written; [|done].
    apply messageData_names.
Qed.

Lemma post_stores_even_if_broadcast_fails_witness :
  let s := {| store := store init;
              ws_hub := {| clients := three_clients; next_ref := 0 |};
              sockets := [1%nat; 2%nat; 3%nat] |} in
  let s' := (post_messages second_fails hi_body s).1.2 in
  Exists (λ kc, send_throws second_fails kc.2 = true) (clients (ws_hub s))
  ∧ (post_messages second_fails hi_body s).1.1 = internal_error
  ∧ get_prop "content" (hgetall (message_key "1") (store s')) = Some (JStr "hi")
  ∧ get_prop "id" (hgetall (message_key "1") (store s')) = Some (JStr "1")
  ∧ get_prop "updated_at" (hgetall (message_key "1") (store s')) = Some (JStr "").
Proof.
  intros s s'.
  assert (Hthrow : Exists (λ kc, send_throws second_fails kc.2 = true)
                     (clients (ws_hub s)))
    by (apply Exists_cons; right; apply Exists_cons; by left).
  destruct (post_stores_even_if_broadcast_fails second_fails hi_body s
              (JStr "u1") (JStr "u2") (JStr "hi")
              eq_refl eq_refl eq_refl eq_refl eq_refl eq_refl eq_refl Hthrow)
    as (Hres & _ & Hread).
  split_and!; [exact Hthrow | exact Hres | exact (Hread "content" (JStr "hi") eq_refl)
              | exact (Hread "id" (JNum 1) eq_refl)
              | exact (Hread "updated_at" JNull eq_refl)].
Defined.

(** X3.  Create, then read: after a POST that passes the checks, whatever
    the broadcast did, GET /messages/<new id> answers 200 with the stored
    record, in which [id], [sender_id], [receiver_id], [content],
    [created_at] and [updated_at] are the strings the client sent for the
    values of the POST: the id in digits, [updated_at] empty. *)
Theorem post_then_get e e' req_body s sender_id receiver_id content :
  get_prop "sender_id" req_body = Some sender_id →
  get_prop "receiver_id" req_body = Some receiver_id →
  get_prop "content" req_body = Some content →
  truthy (Some sender_id) = true →
  truthy (Some receiver_id) = true →
  truthy (Some content) = true →
  redis_down e = false →
  redis_down e' = false →
  let id := (incr (store s)).2 in
  let s' := (post_messages e req_body s).1.2 in
  ∃ message,
    get_message e' (number_string id) s'
      = ({| status := 200; body := JObj message |}, [])
    ∧ (∀ f v, get_prop f (messageData id sender_id receiver_id content (now e)) = Some v →
         get_prop f message = Some (JStr (to_arg v))).
Proof.
  intros Hs Hr Hc Ts Tr Tc Hup Hup' id s'.
  destruct (post_messages_writes e req_body s sender_id receiver_id content)
    as [Hstore _]; try done.
  assert (Hread : ∀ f v,
    get_prop f (messageData id sender_id receiver_id content (now e)) = Some v →
    get_prop f (hgetall (message_key (number_string id)) (store s'))
    = Some (JStr (to_arg v))).
  { intros f v Hget. unfold s'. rewrite Hstore. unfold createMessage. simpl.
    rewrite hgetall_hmset. apply foldl_set_prop_written; [|done].
    apply messageData_names. }
  exists (hgetall (message_key (number_string id)) (store s')). split; [|done].
  unfold get_message. rewrite Hup'.
  pose proof (get_prop_nonempty "id" _ _ (Hread "id" (JNum id) eq_refl)) as Hlen.
  by destruct (length _).
Qed.

Lemma post_then_get_witness :
  let s' := (post_messages quiet hi_body two_peers).1.2 in
  ∃ message,
    get_message quiet "1" s' = ({| status := 200; body := JObj message |}, [])
    ∧ get_prop "id" message = Some (JStr "1")
    ∧ get_prop "content" message = Some (JStr "hi")
    ∧ get_prop "updated_at" message = Some (JStr "").
Proof.
  intros s'.
  destruct (post_then_get quiet quiet hi_body two_peers (JStr "u1") (JStr "u2") (JStr "hi")
              eq_refl eq_refl eq_refl eq_refl eq_refl eq_refl eq_refl eq_refl)
    as (message & Hget & Hread).
  exists message.
  split_and!; [exact Hget | exact (Hread "id" (JNum 1) eq_refl)
              | exact (Hread "content" (JStr "hi") eq_refl)
              | exact (Hread "updated_at" JNull eq_refl)].
Defined.

Lemma exists_key_false key r : exists_key key r = false ↔ hashes r !! key = None.
Proof.
  unfold exists_key. rewrite bool_decide_eq_false, <- eq_None_not_Some. done.
Qed.

Lemma exists_key_true key r : exists_key key r = true ↔ is_Some (hashes r !! key).
Proof. unfold exists_key. by rewrite bool_decide_eq_true. Qed.

Lemma with_store_same s : with_store (store s) s = s.
Proof. by destruct s. Qed.

(** The store after a DELETE that reached it. *)
Lemma delete_message_deletes e id s :
  redis_down e = false →
  store (delete_message e id s).1.2
  = {| message_id := message_id (store s);
       hashes := delete (message_key id) (hashes (store s)) |}.
Proof.
  intros Hup. unfold delete_message. rewrite Hup. simpl.
  destruct (_ =? _)%Z; [done|].
  by destruct (broadcast e _ (clients (ws_hub s))) as [es []].
Qed.

(** X4.  Delete, then read or update: after a DELETE /messages/:id that
    reached the store the message is gone; a GET of the id answers 404, and
    a PUT of the id answers 404 and does not bring the message back. *)
Theorem delete_then_gone e e' id s req_body content :
  redis_down e = false →
  redis_down e' = false →
  get_prop "content" req_body = Some content →
  truthy (Some content) = true →
  let s' := (delete_message e id s).1.2 in
  get_message e' id s'
    = ({| status := 404; body := error_body "Message not found" |}, [])
  ∧ put_message e' id req_body s'
    = ({| status := 404; body := error_body "Message not found" |}, s', []).
Proof.
  intros Hup Hup' Hc Tc s'.
  assert (Hgone : hashes (store s') !! message_key id = None).
  { unfold s'. rewrite delete_message_deletes by done. simpl. apply lookup_delete_eq. }
  split.
  - unfold get_message, hgetall. by rewrite Hup', Hgone.
  - unfold put_message. rewrite Hc, Tc, Hup'. simpl.
    by rewrite (proj2 (exists_key_false _ _) Hgone).
Qed.

Lemma delete_then_gone_witness :
  let s := (post_messages quiet hi_body two_peers).1.2 in
  let s' := (delete_message quiet "1" s).1.2 in
  exists_key (message_key "1") (store s) = true
  ∧ get_message quiet "1" s'
    = ({| status := 404; body := error_body "Message not found" |}, [])
  ∧ put_message quiet "1" [("content", JStr "again")] s'
    = ({| status := 404; body := error_body "Message not found" |}, s', []).
Proof.
  intros s s'. split; [reflexivity|].
  exact (delete_then_gone quiet quiet "1" s [("content", JStr "again")] (JStr "again")
           eq_refl eq_refl eq_refl eq_refl).
Defined.

(** X5.  A DELETE /messages/:id of an id that is not stored is answered 404
    and changes nothing: the store and the registry are as before and
    nothing is broadcast. *)
Theorem delete_missing_is_404 e id s :
  redis_down e = false →
  exists_key (message_key id) (store s) = false →
  delete_message e id s
  = ({| status := 404; body := error_body "Message not found" |}, s, []).
Proof.
  intros Hup Hno. unfold delete_message, del. rewrite Hup, Hno. simpl.
  apply exists_key_false in Hno. rewrite delete_id by done.
  replace {| message_id := message_id (store s); hashes := hashes (store s) |}
    with (store s) by (by destruct (store s)).
  by rewrite with_store_same.
Qed.

Lemma delete_missing_is_404_witness :
  exists_key (message_key "999") (store two_peers) = false
  ∧ delete_message quiet "999" two_peers
    = ({| status := 404; body := error_body "Message not found" |}, two_peers, []).
Proof.
  split; [reflexivity|].
  exact (delete_missing_is_404 quiet "999" two_peers eq_refl eq_refl).
Defined.

(** X6.  A DELETE /messages/:id of a stored id, with no send throwing, is
    answered 200, removes that message and no other, leaves the id counter
    alone, and sends [delete_message] with the id once for each entry of
    the registry. *)
Theorem delete_existing_notifies e id s :
  redis_down e = false →
  exists_key (message_key id) (store s) = true →
  Forall (delivers e) (clients (ws_hub s)) →
  let s' := (delete_message e id s).1.2 in
  (delete_message e id s).1.1
    = {| status := 200; body := JObj [("message", JStr "Message deleted")] |}
  ∧ (delete_message e id s).2
    = (λ kc, Send kc.2 (event_of "delete_message" (JObj [("id", JStr id)])))
        <$> clients (ws_hub s)
  ∧ hashes (store s') !! message_key id = None
  ∧ (∀ key, key ≠ message_key id → hashes (store s') !! key = hashes (store s) !! key)
  ∧ message_id (store s') = message_id (store s).
Proof.
  intros Hup Hex Hall s'.
  assert (Hstore : store s' = {| message_id := message_id (store s);
                                 hashes := delete (message_key id) (hashes (store s)) |})
    by (by apply delete_message_deletes).
  assert (Hrun : delete_message e id s
    = ({| status := 200; body := JObj [("message", JStr "Message deleted")] |},
       with_store (del (message_key id) (store s)).1 s,
       (λ kc, Send kc.2 (event_of "delete_message" (JObj [("id", JStr id)])))
         <$> clients (ws_hub s))).
  { unfold delete_message, del. rewrite Hup, Hex. simpl.
    by rewrite (broadcast_all e _ _ Hall). }
  split_and!.
  - by rewrite Hrun.
  - by rewrite Hrun.
  - rewrite Hstore. simpl. apply lookup_delete_eq.
  - intros key Hne. rewrite Hstore. simpl. by apply lookup_delete_ne.
  - by rewrite Hstore.
Qed.

Lemma delete_existing_notifies_witness :
  let s := (post_messages quiet hi_body two_peers).1.2 in
  exists_key (message_key "1") (store s) = true
  ∧ Forall (delivers quiet) (clients (ws_hub s))
  ∧ (delete_message quiet "1" s).1.1
    = {| status := 200; body := JObj [("message", JStr "Message deleted")] |}
  ∧ (delete_message quiet "1" s).2
    = [Send 1%nat (event_of "delete_message" (JObj [("id", JStr "1")]))].
Proof.
  intros s.
  assert (Hall : Forall (delivers quiet) (clients (ws_hub s))) by (by repeat constructor).
  destruct (delete_existing_notifies quiet "1" s eq_refl eq_refl Hall) as (H1 & H2 & _).
  split_and!; [reflexivity | exact Hall | exact H1 | exact H2].
Defined.

(** X7.  A PUT /messages/:id never creates a message and never writes on a
    rejected request: with a missing or falsy [content] it is answered 400,
    and with a truthy [content] for an id that is not stored it is answered
    404; in both cases the store and the registry are as before and nothing
    is broadcast. *)
Theorem put_rejected_changes_nothing e id req_body s :
  (truthy (get_prop "content" req_body) = false →
     put_message e id req_body s
     = ({| status := 400; body := error_body "Content is required" |}, s, []))
  ∧ (truthy (get_prop "content" req_body) = true →
     redis_down e = false →
     exists_key (message_key id) (store s) = false →
     put_message e id req_body s
     = ({| status := 404; body := error_body "Message not found" |}, s, [])).
Proof.
  unfold put_message. split.
  - intros Hbad. destruct (get_prop "content" req_body) as [c|]; [|done].
    by rewrite Hbad.
  - intros Hok Hup Hno. destruct (get_prop "content" req_body) as [c|]; [|done].
    by rewrite Hok, Hup, Hno.
Qed.

Lemma put_rejected_changes_nothing_witness :
  put_message quiet "1" [("content", JStr "")] two_peers
    = ({| status := 400; body := error_body "Content is required" |}, two_peers, [])
  ∧ put_message quiet "7" [("content", JStr "hello")] two_peers
    = ({| status := 404; body := error_body "Message not found" |}, two_peers, []).
Proof.
  split.
  - exact (proj1 (put_rejected_changes_nothing quiet "1" [("content", JStr "")] two_peers)
             eq_refl).
  - exact (proj2 (put_rejected_changes_nothing quiet "7" [("content", JStr "hello")]
                    two_peers) eq_refl eq_refl eq_refl).
Defined.

(** X8.  A PUT /messages/:id on a stored id with a truthy [content], with
    no send throwing, is answered 200 with the record as it is stored after
    the update (all its values strings, its [content] the string the client
    sent for the new content), and [update_message] with that same record
    is sent once for each entry of the registry. *)
Theorem put_answers_with_stored_record e id req_body s content :
  get_prop "content" req_body = Some content →
  truthy (Some content) = true →
  redis_down e = false →
  exists_key (message_key id) (store s) = true →
  Forall (delivers e) (clients (ws_hub s)) →
  let s' := (put_message e id req_body s).1.2 in
  let record := hgetall (message_key id) (store s') in
  (put_message e id req_body s).1.1
    = {| status := 200;
         body := JObj [("message", JStr "Message updated"); ("data", JObj record)] |}
  ∧ (put_message e id req_body s).2
    = (λ kc, Send kc.2 (event_of "update_message" (JObj record))) <$> clients (ws_hub s)
  ∧ get_prop "content" record = Some (JStr (to_arg content)).
Proof.
  intros Hc Tc Hup Hex Hall s' record.
  assert (Hrecord : record = hgetall (message_key id)
            (hmset (message_key id)
               [("content", content); ("updated_at", JStr (now e))] (store s))).
  { unfold record, s'. by rewrite (put_message_store e id req_body s content). }
  assert (Hrun : put_message e id req_body s
    = ({| status := 200;
          body := JObj [("message", JStr "Message updated"); ("data", JObj record)] |},
       with_store (hmset (message_key id)
                     [("content", content); ("updated_at", JStr (now e))] (store s)) s,
       (λ kc, Send kc.2 (event_of "update_message" (JObj record))) <$> clients (ws_hub s))).
  { unfold put_message. rewrite Hc, Tc, Hup, Hex. simpl.
    unfold updateMessageById. rewrite <- Hrecord.
    by rewrite (broadcast_all e _ _ Hall). }
  split_and!; [by rewrite Hrun | by rewrite Hrun |].
  rewrite Hrecord, hgetall_hmset. simpl.
  rewrite get_set_prop_ne by done. apply get_set_prop_eq.
Qed.

Lemma put_answers_with_stored_record_witness :
  let s := (post_messages quiet hi_body two_peers).1.2 in
  let e := calm "2024-01-01T12:05:00.000Z" in
  let record := [("id", JStr "1"); ("sender_id", JStr "u1"); ("receiver_id", JStr "u2");
                 ("content", JStr "yo"); ("created_at", JStr "2024-01-01T12:00:00.000Z");
                 ("updated_at", JStr "2024-01-01T12:05:00.000Z")] in
  exists_key (message_key "1") (store s) = true
  ∧ (put_message e "1" [("content", JStr "yo")] s).1.1
    = {| status := 200;
         body := JObj [("message", JStr "Message updated"); ("data", JObj record)] |}
  ∧ (put_message e "1" [("content", JStr "yo")] s).2
    = [Send 1%nat (event_of "update_message" (JObj record))].
Proof.
  intros s e record.
  assert (Hall : Forall (delivers e) (clients (ws_hub s))) by (by repeat constructor).
  destruct (put_answers_with_stored_record e "1" [("content", JStr "yo")] s (JStr "yo")
              eq_refl eq_refl eq_refl eq_refl Hall) as (H1 & H2 & _).
  split_and!; [reflexivity | exact H1 | exact H2].
Defined.

(** ** Message ids *)

Lemma step_message_id_mono e ev s :
  (message_id (store s) ≤ message_id (store (step e ev s).1))%Z.
Proof.
  destruct ev as [ws|ws message|ws|req_body|id req_body|id]; simpl.
  - by destruct (decide (ws ∈ sockets s)).
  - destruct (decide (ws ∈ sockets s)); [|done].
    by destruct (on_message e ws message (ws_hub s)).
  - by destruct (decide (ws ∈ sockets s)).
  - destruct (post_messages e req_body s) as [[res s'] es] eqn:Hpost.
    destruct (post_messages_store e req_body s) as [Heq|(a & b & c & Heq)];
      rewrite Hpost in Heq; simpl in *; rewrite Heq; [done|].
    unfold createMessage. simpl. lia.
  - destruct (put_message e id req_body s) as [[res s'] es] eqn:Hput.
    destruct (put_message_store_cases e id req_body s) as [Heq|(c & Heq)];
      rewrite Hput in Heq; simpl in *; by rewrite Heq.
  - destruct (delete_message e id s) as [[res s'] es] eqn:Hdel.
    destruct (delete_message_store e id s) as [Heq|Heq];
      rewrite Hdel in Heq; simpl in *; by rewrite Heq.
Qed.

Lemma run_message_id_mono trace s :
  (message_id (store s) ≤ message_id (store (run trace s).1))%Z.
Proof.
  revert s. induction trace as [|[e ev] trace IH]; intros s; simpl; [done|].
  pose proof (step_message_id_mono e ev s) as H1.
  destruct (step e ev s) as [s1 es1]. specialize (IH s1).
  destruct (run trace s1) as [s2 es2]. simpl in *. lia.
Qed.

(** A POST answered 201 took the next value of the counter, as the client
    returned it. *)
Lemma post_created_id e req_body s :
  status (post_messages e req_body s).1.1 = 201%nat →
  created_id (post_messages e req_body s).1.1
    = Some (js_number (message_id (store s) + 1))
  ∧ message_id (store (post_messages e req_body s).1.2) = (message_id (store s) + 1)%Z.
Proof.
  unfold post_messages.
  destruct (get_prop "sender_id" req_body) as [a|]; [|done].
  destruct (get_prop "receiver_id" req_body) as [b|]; [|done].
  destruct (get_prop "content" req_body) as [c|]; [|done].
  destruct (negb _ || _ || _); [done|].
  destruct (redis_down e); [done|].
  unfold createMessage. simpl.
  by destruct (broadcast e _ (clients (ws_hub s))) as [es []].
Qed.

(** X9.  While the counter stays within the integers a JavaScript number
    holds exactly (up to 2^53), ids are never reused: of two POSTs answered
    201, with any events in between (deletes, updates, failed requests,
    socket traffic), the later one returns a strictly greater [id]. *)
Theorem later_post_gets_greater_id e1 body1 s between e2 body2 :
  let first := post_messages e1 body1 s in
  let second := post_messages e2 body2 (run between first.1.2).1 in
  (0 ≤ message_id (store s))%Z →
  (message_id (store (run between first.1.2).1) < 2 ^ 53)%Z →
  status first.1.1 = 201%nat →
  status second.1.1 = 201%nat →
  ∃ id1 id2, created_id first.1.1 = Some id1
             ∧ created_id second.1.1 = Some id2
             ∧ (id1 < id2)%Z.
Proof.
  intros first second H0 Hsafe H1 H2.
  destruct (post_created_id e1 body1 s H1) as [Hid1 Hc1].
  destruct (post_created_id e2 body2 _ H2) as [Hid2 _].
  pose proof (run_message_id_mono between first.1.2) as Hmono.
  fold first in Hc1.
  rewrite js_number_exact in Hid1 by lia. rewrite js_number_exact in Hid2 by lia.
  eexists _, _. split_and!; [exact Hid1 | exact Hid2 | lia].
Qed.

Lemma later_post_gets_greater_id_witness :
  let first := post_messages quiet hi_body two_peers in
  let second := post_messages quiet hi_body
                  (run [(quiet, DELETE "1"); (quiet, POST []);
                        (quiet, Close 1%nat)] first.1.2).1 in
  created_id first.1.1 = Some 1%Z
  ∧ created_id second.1.1 = Some 2%Z
  ∧ ∃ id1 id2, created_id first.1.1 = Some id1
               ∧ created_id second.1.1 = Some id2
               ∧ (id1 < id2)%Z.
Proof.
  split_and!; [reflexivity | reflexivity |].
  apply (later_post_gets_greater_id quiet hi_body two_peers
           [(quiet, DELETE "1"); (quiet, POST []); (quiet, Close 1%nat)]
           quiet hi_body); [done | done | reflexivity | reflexivity].
Defined.

(** X21.  At the limit the ids repeat: when the counter stands at 2^53 - 1,
    two POSTs in a row that are both answered 201 return the same [id],
    2^53, since the next value of the counter has no JavaScript number of
    its own. *)
Theorem ids_repeat_at_the_limit e1 body1 s e2 body2 :
  let first := post_messages e1 body1 s in
  let second := post_messages e2 body2 first.1.2 in
  message_id (store s) = (2 ^ 53 - 1)%Z →
  status first.1.1 = 201%nat →
  status second.1.1 = 201%nat →
  created_id first.1.1 = Some (2 ^ 53)%Z
  ∧ created_id second.1.1 = Some (2 ^ 53)%Z.
Proof.
  intros first second Hlimit H1 H2.
  destruct (post_created_id e1 body1 s H1) as [Hid1 Hc1].
  destruct (post_created_id e2 body2 _ H2) as [Hid2 _].
  fold first in Hc1, Hid2.
  rewrite Hc1, Hlimit in Hid2. rewrite Hlimit in Hid1.
  split; [exact Hid1 | exact Hid2].
Qed.

Lemma ids_repeat_at_the_limit_witness :
  let s := {| store := {| message_id := 2 ^ 53 - 1; hashes := ∅ |};
              ws_hub := ws_hub init; sockets := [] |} in
  let first := post_messages quiet hi_body s in
  let second := post_messages quiet hi_body first.1.2 in
  created_id first.1.1 = Some 9007199254740992%Z
  ∧ created_id second.1.1 = Some 9007199254740992%Z.
Proof.
  intros s first second.
  exact (ids_repeat_at_the_limit quiet hi_body s quiet hi_body
           eq_refl eq_refl eq_refl).
Defined.

(** ** More of the hub *)

Lemma filter_other_idemp ws (m : Map) :
  filter (λ kc, kc.2 ≠ ws) (filter (λ kc, kc.2 ≠ ws) m) = filter (λ kc, kc.2 ≠ ws) m.
Proof.
  induction m as [|[k c] m IH]; [done|].
  destruct (decide (c = ws)) as [->|Hne].
  - by rewrite filter_cons_False by (simpl; auto).
  - rewrite !filter_cons_True by done. by rewrite IH.
Qed.

(** X10.  The close handler is idempotent: on a registry with distinct
    keys, running it a second time for the same connection changes
    nothing. *)
Theorem close_twice_is_close_once ws h :
  Map_wf (clients h) → on_close ws (on_close ws h) = on_close ws h.
Proof.
  intros Hwf. unfold on_close. simpl. f_equal.
  rewrite (close_each_all ws (clients h)) by done.
  rewrite close_each_all.
  - apply filter_other_idemp.
  - eapply sublist_NoDup; [exact Hwf|]. apply fmap_sublist, sublist_filter.
Qed.

Lemma close_twice_is_close_once_witness :
  Map_wf (clients shared_registry)
  ∧ on_close 1%nat (on_close 1%nat shared_registry)
    = {| clients := [(KStr "b", 2%nat)]; next_ref := 0 |}.
Proof.
  assert (Hwf : Map_wf (clients shared_registry))
    by (unfold Map_wf; by apply (bool_decide_unpack _)).
  split; [exact Hwf|].
  exact (close_twice_is_close_once 1%nat shared_registry Hwf).
Defined.

Lemma key_of_primitive n n' x : by_reference x = false → key_of n x = key_of n' x.
Proof. by destruct x as [[]|]. Qed.

(** X11.  Register, then call: a register frame is never answered; after
    it, a signaling frame whose [target] is the same value as the
    registered [userKey] (a string, number, boolean, null, or both absent)
    is relayed to the registering connection, and the routes of all other
    keys are as before. *)
Theorem register_then_route e e' ws c reg signal h x :
  by_reference x = false →
  is_str (get_prop "type" reg) "register" = true →
  get_prop "userKey" reg = x →
  is_signal (get_prop "type" signal) = true →
  get_prop "target" signal = x →
  let h' := (on_message e ws (Parsed (JObj reg)) h).1 in
  (on_message e ws (Parsed (JObj reg)) h).2 = []
  ∧ lookup_target x (clients h') = Some ws
  ∧ (∀ k, k ≠ key_of 0 x → Map_get k (clients h') = Map_get k (clients h))
  ∧ (on_message e' c (Parsed (JObj signal)) h').2
    = (if send_throws e' ws then [LogError "Error parsing message:"]
       else [Send ws (JObj (relayed signal))]).
Proof.
  intros Hprim Hreg Hkey Hsig Htarget h'.
  assert (Hh' : h' = {| clients := Map_set (key_of 0 x) ws (clients h);
                        next_ref := next_ref h |}).
  { unfold h'. rewrite on_message_register by done. rewrite Hkey, Hprim. simpl.
    by rewrite (key_of_primitive (next_ref h) 0). }
  assert (Hlook : lookup_target x (clients h') = Some ws).
  { unfold lookup_target. rewrite Hprim, Hh'. simpl. apply Map_get_set_eq. }
  split_and!.
  - by rewrite on_message_register.
  - done.
  - intros k Hk. rewrite Hh'. simpl. by apply Map_get_set_ne.
  - rewrite on_message_signal by done. simpl. by rewrite Htarget, Hlook.
Qed.

(** A register frame without [userKey] and an offer without [target]: the
    offer reaches the connection registered under [undefined]. *)
Lemma register_then_route_witness :
  let reg := [("type", JStr "register")] in
  let signal := [("type", JStr "offer"); ("userKey", JStr "u2")] in
  let h' := (on_message quiet 1%nat (Parsed (JObj reg)) (ws_hub init)).1 in
  (on_message quiet 2%nat (Parsed (JObj signal)) h').2
  = [Send 1%nat (JObj [("type", JStr "offer"); ("userKey", JStr "u2");
                       ("sender", JStr "u2")])].
Proof.
  intros reg signal h'.
  destruct (register_then_route quiet quiet 1%nat 2%nat reg signal (ws_hub init) None
              eq_refl eq_refl eq_refl eq_refl eq_refl) as (_ & _ & _ & Hsend).
  exact Hsend.
Defined.

Lemma Map_set_fresh k c (m : Map) : k ∉ m.*1 → Map_set k c m = m ++ [(k, c)].
Proof.
  induction m as [|[k' c'] m IH]; csimpl; [done|].
  rewrite not_elem_of_cons. intros [Hne Hm].
  rewrite decide_False by done. by rewrite IH.
Qed.

Lemma Map_get_snoc_ne k k' c (m : Map) :
  k ≠ k' → Map_get k (m ++ [(k', c)]) = Map_get k m.
Proof.
  intros Hne. induction m as [|[k0 c0] m IH]; csimpl.
  - by rewrite decide_False.
  - by destruct (decide (k0 = k)).
Qed.

Lemma key_of_not_object n x r : by_reference x = false → key_of n x ≠ KObject r.
Proof. by destruct x as [[]|]. Qed.

(** X12.  In every state the server reaches, a register frame whose
    [userKey] is an object or an array replaces nothing and routes nothing:
    it appends one entry for the connection to the registry, under a key
    that no later frame can name, and every target resolves as it did
    before. *)
Theorem object_key_adds_unreachable_entry trace e ws reg :
  let s := (run trace init).1 in
  ws ∈ sockets s →
  is_str (get_prop "type" reg) "register" = true →
  by_reference (get_prop "userKey" reg) = true →
  let s' := (step e (Message ws (Parsed (JObj reg))) s).1 in
  clients (ws_hub s') = clients (ws_hub s) ++ [(KObject (next_ref (ws_hub s)), ws)]
  ∧ (∀ target, lookup_target target (clients (ws_hub s'))
               = lookup_target target (clients (ws_hub s))).
Proof.
  intros s Hws Hreg Href s'.
  destruct (run_hub_inv trace init init_hub_inv) as (_ & _ & Hfresh). fold s in Hfresh.
  assert (Hkey : key_of (next_ref (ws_hub s)) (get_prop "userKey" reg)
                 = KObject (next_ref (ws_hub s)))
    by (by destruct (get_prop "userKey" reg) as [[]|]).
  assert (Hclients : clients (ws_hub s')
            = clients (ws_hub s) ++ [(KObject (next_ref (ws_hub s)), ws)]).
  { unfold s', step. rewrite decide_True by done.
    rewrite on_message_register by done. simpl. rewrite Hkey.
    apply Map_set_fresh. intros ([k c] & Hk & Hin)%list_elem_of_fmap. simpl in Hk.
    subst k. specialize (Hfresh _ _ Hin). lia. }
  split; [done|]. intros target. unfold lookup_target.
  destruct (by_reference target) eqn:Ht; [done|].
  rewrite Hclients. apply Map_get_snoc_ne. by apply key_of_not_object.
Qed.

Lemma object_key_adds_unreachable_entry_witness :
  let reg := [("type", JStr "register"); ("userKey", JObj [("name", JStr "u1")])] in
  let s' := (step quiet (Message 2%nat (Parsed (JObj reg))) two_peers).1 in
  (2%nat ∈ sockets two_peers)
  ∧ clients (ws_hub s') = [(KStr "u1", 1%nat); (KObject 0, 2%nat)]
  ∧ lookup_target (Some (JObj [("name", JStr "u1")])) (clients (ws_hub s')) = None.
Proof.
  intros reg s'.
  assert (Hopen : 2%nat ∈ sockets two_peers) by (by apply (bool_decide_unpack _)).
  destruct (object_key_adds_unreachable_entry
              [(quiet, Connection 1%nat); (quiet, Connection 2%nat);
               (quiet, Message 1%nat (Parsed (JObj (register_frame "u1"))))]
              quiet 2%nat reg Hopen eq_refl eq_refl) as [Hclients Hroutes].
  split_and!; [exact Hopen | exact Hclients |].
  exact (Hroutes (Some (JObj [("name", JStr "u1")]))).
Defined.

(** Whoever gets a frame is in the registry. *)
Lemma broadcast_targets e data (m : Map) c d :
  Send c d ∈ (broadcast e data m).1 → c ∈ m.*2.
Proof.
  induction m as [|[k ws] m IH]; csimpl.
  - by intros ?%elem_of_nil.
  - destruct (send_throws e ws); [by intros ?%elem_of_nil|].
    destruct (broadcast e data m) as [es cpl]. simpl in *.
    intros [[= -> ->]|Hin]%elem_of_cons; [left | right; by apply IH].
Qed.

Lemma on_message_targets e ws message h c d :
  Send c d ∈ (on_message e ws message h).2 → c ∈ (clients h).*2.
Proof.
  destruct message as [|[| | | | |parsedMessage]]; simpl;
    try (by intros [[=]|?%elem_of_nil]%elem_of_cons); try (by intros ?%elem_of_nil).
  destruct (is_str _ "register"); [by intros ?%elem_of_nil|].
  destruct (is_signal _); [|by intros ?%elem_of_nil].
  unfold lookup_target. destruct (by_reference _); [by intros ?%elem_of_nil|].
  destruct (Map_get _ _) as [t|] eqn:Hget; [|by intros ?%elem_of_nil].
  destruct (send_throws e t); [by intros [[=]|?%elem_of_nil]%elem_of_cons|].
  intros [[= -> ->]|?%elem_of_nil]%elem_of_cons; [|done].
  apply Map_get_Some in Hget. apply list_elem_of_fmap. by eexists (_, t).
Qed.

(** The effects of a handler that ends with a broadcast. *)
Local Ltac by_broadcast Hlog :=
  match goal with
  | |- context [broadcast ?e ?dat ?m] =>
      let Hb := fresh "Hb" in
      pose proof (broadcast_targets e dat m) as Hb;
      destruct (broadcast e dat m) as [? []]; simpl in *;
      [ intros ?; by eapply Hb
      | intros [?|?%Hlog]%elem_of_app; [by eapply Hb | done] ]
  end.

Lemma http_targets e ev s c d :
  is_http ev = true → Send c d ∈ (step e ev s).2 → c ∈ (clients (ws_hub s)).*2.
Proof.
  assert (Hlog : ∀ c' d', Send c' d' ∉ [LogError "error"])
    by (intros c' d' [[=]|?%elem_of_nil]%elem_of_cons; done).
  destruct ev as [| | |req_body|id req_body|id]; try done; intros _; simpl.
  - unfold post_messages.
    destruct (get_prop "sender_id" req_body) as [a|]; [|by intros ?%elem_of_nil].
    destruct (get_prop "receiver_id" req_body) as [b|]; [|by intros ?%elem_of_nil].
    destruct (get_prop "content" req_body) as [x|]; [|by intros ?%elem_of_nil].
    destruct (negb _ || _ || _); [by intros ?%elem_of_nil|].
    destruct (redis_down e); [by intros ?%Hlog|].
    destruct (createMessage e a b x (store s)) as [r data].
    by_broadcast Hlog.
  - unfold put_message.
    destruct (get_prop "content" req_body) as [x|]; [|by intros ?%elem_of_nil].
    destruct (negb (truthy _)); [by intros ?%elem_of_nil|].
    destruct (redis_down e); [by intros ?%Hlog|].
    destruct (negb (exists_key _ _)); [by intros ?%elem_of_nil|].
    destruct (updateMessageById e id x (store s)) as [r updatedMessage].
    by_broadcast Hlog.
  - unfold delete_message.
    destruct (redis_down e); [by intros ?%Hlog|].
    destruct (del (message_key id) (store s)) as [r result].
    destruct (_ =? _)%Z; [by intros ?%elem_of_nil|].
    by_broadcast Hlog.
Qed.

(** X13.  The server only ever sends to connections that are registered
    and still open: in every state it reaches, whatever the next event
    (a frame, a close, an HTTP request), each frame it sends goes to a
    connection that holds a registry entry and whose close event has not
    come. *)
Theorem sends_only_to_open_registered trace e ev c d :
  let s := (run trace init).1 in
  Send c d ∈ (step e ev s).2 →
  c ∈ (clients (ws_hub s)).*2 ∧ c ∈ sockets s.
Proof.
  intros s Hin.
  destruct (run_hub_inv trace init init_hub_inv) as (_ & Hopen & _). fold s in Hopen.
  assert (Hreg : c ∈ (clients (ws_hub s)).*2).
  { destruct (is_http ev) eqn:Hhttp; [by eapply http_targets|].
    destruct ev as [ws|ws message|ws| | |]; try done; simpl in Hin.
    - destruct (decide (ws ∈ sockets s)); by apply elem_of_nil in Hin.
    - destruct (decide (ws ∈ sockets s)); [|by apply elem_of_nil in Hin].
      pose proof (on_message_targets e ws message (ws_hub s) c d) as Ht.
      destruct (on_message e ws message (ws_hub s)) as [h es]. by apply Ht.
    - destruct (decide (ws ∈ sockets s)); by apply elem_of_nil in Hin. }
  split; [done|].
  apply list_elem_of_fmap in Hreg as ([k c'] & -> & Hkc). by eapply Hopen.
Qed.

(** Connection 1 registered and closed; connection 2 registered; a
    message is created. *)
Lemma sends_only_to_open_registered_witness :
  let trace := [(quiet, Connection 1%nat); (quiet, Connection 2%nat);
                (quiet, Message 1%nat (Parsed (JObj (register_frame "u1"))));
                (quiet, Message 2%nat (Parsed (JObj (register_frame "u2"))));
                (quiet, Close 1%nat)] in
  let s := (run trace init).1 in
  (step quiet (POST hi_body) s).2
    = [Send 2%nat (event_of "new_message"
                     (JObj (messageData 1 (JStr "u1") (JStr "u2") (JStr "hi")
                              "2024-01-01T12:00:00.000Z")))]
  ∧ (2%nat ∈ (clients (ws_hub s)).*2 ∧ 2%nat ∈ sockets s).
Proof.
  intros trace s. split; [reflexivity|].
  apply (sends_only_to_open_registered trace quiet (POST hi_body) 2%nat
           (event_of "new_message"
              (JObj (messageData 1 (JStr "u1") (JStr "u2") (JStr "hi")
                       "2024-01-01T12:00:00.000Z")))).
  vm_compute. left.
Defined.

(** X14.  The two halves of the server keep to their own state.  An HTTP
    request, whatever its outcome (a store that is down and a send that
    throws included), leaves the registry and the open sockets as they
    were; a socket event (connection, frame, close) leaves the store as it
    was. *)
Theorem halves_keep_to_their_state e ev s :
  if is_http ev
  then ws_hub (step e ev s).1 = ws_hub s ∧ sockets (step e ev s).1 = sockets s
  else store (step e ev s).1 = store s.
Proof.
  destruct ev as [ws|ws message|ws|req_body|id req_body|id]; simpl.
  - by destruct (decide (ws ∈ sockets s)).
  - destruct (decide (ws ∈ sockets s)); [|done].
    by destruct (on_message e ws message (ws_hub s)).
  - by destruct (decide (ws ∈ sockets s)).
  - exact (http_keeps_hub e (POST req_body) s I).
  - exact (http_keeps_hub e (PUT id req_body) s I).
  - exact (http_keeps_hub e (DELETE id) s I).
Qed.

(** ** Seeding the store *)

Lemma message_key_prefix id : String.prefix "message:" (message_key id) = true.
Proof. by destruct id. Qed.

Lemma message_key_inj id id' : message_key id = message_key id' → id = id'.
Proof. unfold message_key. simpl. by intros [=]. Qed.

Lemma elem_of_message_keys key r :
  key ∈ message_keys r
  ↔ String.prefix "message:" key = true ∧ is_Some (hashes r !! key).
Proof.
  unfold message_keys. rewrite list_elem_of_filter, list_elem_of_fmap. split.
  - intros (Hp & [k h] & -> & Hin%elem_of_map_to_list). split; [done | by exists h].
  - intros (Hp & h & Hh). split; [done|]. exists (key, h).
    split; [done | by apply elem_of_map_to_list].
Qed.

Lemma no_message_keys key r :
  message_keys r = [] → String.prefix "message:" key = true → hashes r !! key = None.
Proof.
  intros Hnone Hp. apply eq_None_not_Some. intros Hsome.
  assert (Hin : key ∈ message_keys r) by (by apply elem_of_message_keys).
  rewrite Hnone in Hin. by apply elem_of_nil in Hin.
Qed.

Lemma hgetall_incr key r : hgetall key (incr r).1 = hgetall key r.
Proof. done. Qed.

Lemma hgetall_absent key r : hashes r !! key = None → hgetall key r = [].
Proof. intros Hnone. unfold hgetall. by rewrite Hnone. Qed.

(** X15.  [initializeMessages] on a store that holds no message, with the
    counter within the integers a JavaScript number holds exactly, creates
    the two default messages and nothing else: they take the next two
    values of the id counter (which need not be 1 and 2), each is stored
    whole, as strings, with [created_at] the clock reading of its round and
    [updated_at] empty, and every other key is as before. *)
Theorem initialize_seeds_two_messages clock r :
  message_keys r = [] →
  (0 ≤ message_id r)%Z →
  (message_id r + 2 ≤ 2 ^ 53)%Z →
  let r' := (initializeMessages false clock r).1 in
  let id1 := (message_id r + 1)%Z in
  let id2 := (message_id r + 2)%Z in
  message_id r' = id2
  ∧ hgetall (message_key (number_string id1)) r'
    = [("id", JStr (number_string id1)); ("sender_id", JStr "user_one");
       ("receiver_id", JStr "user_two"); ("content", JStr "Hey whats up!");
       ("created_at", JStr (clock 0%nat)); ("updated_at", JStr "")]
  ∧ hgetall (message_key (number_string id2)) r'
    = [("id", JStr (number_string id2)); ("sender_id", JStr "user_two");
       ("receiver_id", JStr "user_one");
       ("content", JStr "Hi there, this chat is amazing!");
       ("created_at", JStr (clock 1%nat)); ("updated_at", JStr "")]
  ∧ (∀ key, key ≠ message_key (number_string id1) →
            key ≠ message_key (number_string id2) →
            hashes r' !! key = hashes r !! key)
  ∧ (initializeMessages false clock r).2 = [].
Proof.
  intros Hnone H0 Hsafe r' id1 id2.
  assert (Hne : message_key (number_string id1) ≠ message_key (number_string id2)).
  { intros Heq%message_key_inj. apply number_string_inj in Heq; unfold id1, id2 in *; lia. }
  assert (H1 : hashes r !! message_key (number_string id1) = None)
    by (apply no_message_keys; [done | apply message_key_prefix]).
  assert (H2 : hashes r !! message_key (number_string id2) = None)
    by (apply no_message_keys; [done | apply message_key_prefix]).
  assert (Hr' : r' = hmset (message_key (number_string id2))
                       (messageData id2 (JStr "user_two") (JStr "user_one")
                          (JStr "Hi there, this chat is amazing!") (clock 1%nat))
                       (incr (hmset (message_key (number_string id1))
                                (messageData id1 (JStr "user_one") (JStr "user_two")
                                   (JStr "Hey whats up!") (clock 0%nat))
                                (incr r).1)).1).
  { unfold r', initializeMessages. rewrite Hnone. simpl.
    rewrite !js_number_exact by lia.
    replace (message_id r + 1 + 1)%Z with id2 by (unfold id2; lia). done. }
  split_and!.
  - rewrite Hr'. simpl. unfold id2. lia.
  - rewrite Hr'. rewrite hgetall_hmset_ne by done. rewrite hgetall_incr.
    rewrite hgetall_hmset, hgetall_incr. by rewrite (hgetall_absent _ _ H1).
  - rewrite Hr'. rewrite hgetall_hmset, hgetall_incr.
    rewrite hgetall_hmset_ne by done. rewrite hgetall_incr.
    by rewrite (hgetall_absent _ _ H2).
  - intros key Hk1 Hk2. rewrite Hr'. cbn [hmset hashes incr fst].
    by rewrite !lookup_insert_ne.
  - unfold initializeMessages. by rewrite Hnone.
Qed.

(** A store whose two messages were deleted: the counter stands at 2. *)
Lemma initialize_seeds_two_messages_witness :
  let r := {| message_id := 2; hashes := ∅ |} in
  let r' := (initializeMessages false (λ _, "2024-01-01T12:00:00.000Z") r).1 in
  message_keys r = []
  ∧ message_id r' = 4%Z
  ∧ hgetall (message_key "3") r'
    = [("id", JStr "3"); ("sender_id", JStr "user_one");
       ("receiver_id", JStr "user_two"); ("content", JStr "Hey whats up!");
       ("created_at", JStr "2024-01-01T12:00:00.000Z"); ("updated_at", JStr "")].
Proof.
  intros r r'.
  destruct (initialize_seeds_two_messages (λ _, "2024-01-01T12:00:00.000Z") r eq_refl)
    as (Hid & Hfirst & _); [done | done |].
  split_and!; [reflexivity | exact Hid | exact Hfirst].
Defined.

(** X16.  [initializeMessages] never touches a store that already holds a
    message, whether or not the store answers; so running it again after
    it has seeded the store (a restart) changes nothing. *)
Theorem initialize_only_once down clock clock' r :
  (message_keys r ≠ [] → (initializeMessages down clock r).1 = r)
  ∧ initializeMessages false clock' (initializeMessages false clock r).1
    = ((initializeMessages false clock r).1, []).
Proof.
  assert (Hskip : ∀ d c r0, message_keys r0 ≠ [] → (initializeMessages d c r0).1 = r0).
  { intros d c r0 Hsome. unfold initializeMessages. destruct d; [done|].
    by destruct (message_keys r0). }
  split; [apply Hskip|].
  assert (Hsome : message_keys (initializeMessages false clock r).1 ≠ []).
  { destruct (message_keys r) as [|k ks] eqn:Hkeys.
    - intros Hnone.
      assert (Hin : message_key (number_string (js_number (message_id r + 1 + 1)))
                    ∈ message_keys (initializeMessages false clock r).1).
      { apply elem_of_message_keys. split; [apply message_key_prefix|].
        unfold initializeMessages. rewrite Hkeys. simpl.
        rewrite lookup_insert_eq. by eexists. }
      rewrite Hnone in Hin. by apply elem_of_nil in Hin.
    - rewrite Hskip by (by rewrite Hkeys). by rewrite Hkeys. }
  unfold initializeMessages at 1.
  by destruct (message_keys (initializeMessages false clock r).1).
Qed.

Lemma initialize_only_once_witness :
  let r := store (post_messages quiet hi_body two_peers).1.2 in
  message_keys r ≠ []
  ∧ (initializeMessages false (λ _, "2024-01-01T12:05:00.000Z") r).1 = r.
Proof.
  intros r.
  assert (Hsome : message_keys r ≠ []) by (vm_compute; discriminate).
  split; [exact Hsome|].
  exact (proj1 (initialize_only_once false (λ _, "2024-01-01T12:05:00.000Z")
                  (λ _, "") r) Hsome).
Defined.

(** ** The handlers and their earlier versions *)

(** X17.  Adding the relay left registration as it was: after any frame
    the current message handler and the one that only registers leave the
    same registry; they do the same on every frame that is not an offer,
    answer or candidate, and on those the earlier handler does nothing. *)
Theorem relay_left_registration_alone e ws message h :
  (on_message e ws message h).1 = (on_message_registering ws message h).1
  ∧ (is_signal (type_of message) = false →
     on_message e ws message h = on_message_registering ws message h)
  ∧ (is_signal (type_of message) = true →
     on_message_registering ws message h = (h, [])).
Proof.
  destruct message as [|[| | | | |parsedMessage]]; try done. simpl.
  destruct (is_str (get_prop "type" parsedMessage) "register") eqn:Hreg.
  - split_and!; [done | done |]. intros Hsig.
    apply is_signal_not_register in Hsig. congruence.
  - destruct (is_signal (get_prop "type" parsedMessage)); [|done].
    split_and!; [|done|done].
    destruct (lookup_target _ _) as [t|]; [|done]. by destruct (send_throws e t).
Qed.

Lemma relay_left_registration_alone_witness :
  on_message quiet 2%nat (Parsed (JObj (register_frame "u2"))) (ws_hub two_peers)
    = on_message_registering 2%nat (Parsed (JObj (register_frame "u2"))) (ws_hub two_peers)
  ∧ on_message_registering 2%nat (Parsed (JObj offer_frame)) (ws_hub two_peers)
    = (ws_hub two_peers, []).
Proof.
  split.
  - exact (proj1 (proj2 (relay_left_registration_alone quiet 2%nat
                           (Parsed (JObj (register_frame "u2"))) (ws_hub two_peers)))
             eq_refl).
  - exact (proj2 (proj2 (relay_left_registration_alone quiet 2%nat
                           (Parsed (JObj offer_frame)) (ws_hub two_peers)))
             eq_refl).
Defined.

(** X18.  Adding the notifications left the POST as it was for its caller,
    except when a send fails: the current handler leaves the server in the
    state the handler without sockets leaves it in, always, and gives the
    same answer whenever no send to a registered connection throws. *)
Theorem post_stores_as_before_sockets e req_body s :
  (post_messages e req_body s).1.2 = (post_messages_silent e req_body s).2
  ∧ (Forall (delivers e) (clients (ws_hub s)) →
     (post_messages e req_body s).1.1 = (post_messages_silent e req_body s).1).
Proof.
  unfold post_messages, post_messages_silent.
  destruct (get_prop "sender_id" req_body) as [a|]; [|done].
  destruct (get_prop "receiver_id" req_body) as [b|]; [|done].
  destruct (get_prop "content" req_body) as [c|]; [|done].
  destruct (negb _ || _ || _); [done|].
  destruct (redis_down e); [done|].
  unfold createMessage. simpl. split.
  - by destruct (broadcast e _ (clients (ws_hub s))) as [es []].
  - intros Hall. by rewrite (broadcast_all e _ _ Hall).
Qed.

Lemma post_stores_as_before_sockets_witness :
  Forall (delivers quiet) (clients (ws_hub two_peers))
  ∧ (post_messages quiet hi_body two_peers).1.1
    = (post_messages_silent quiet hi_body two_peers).1.
Proof.
  assert (Hall : Forall (delivers quiet) (clients (ws_hub two_peers)))
    by (by repeat constructor).
  split; [exact Hall|].
  exact (proj2 (post_stores_as_before_sockets quiet hi_body two_peers) Hall).
Defined.

(** ** What a failed broadcast and a replaced registration leave behind *)

Lemma Map_set_set k c c' (m : Map) : Map_set k c' (Map_set k c m) = Map_set k c' m.
Proof.
  induction m as [|[k0 c0] m IH]; csimpl.
  - by rewrite decide_True.
  - destruct (decide (k0 = k)) as [->|Hne]; csimpl.
    + by rewrite decide_True.
    + rewrite decide_False by done. by rewrite IH.
Qed.

Lemma elem_of_Map_delete x k (m : Map) : x ∈ Map_delete k m → x ∈ m.
Proof.
  induction m as [|[k' c'] m IH]; csimpl; [done|].
  destruct (decide (k' = k)).
  - intros Hin. right. by apply IH.
  - intros [->|Hin]%elem_of_cons; [left | right; by apply IH].
Qed.

Lemma elem_of_close_each x ws (entries live : Map) :
  x ∈ close_each ws entries live → x ∈ live.
Proof.
  revert live. induction entries as [|[k c] entries IH]; intros live; csimpl; [done|].
  intros Hin%IH. destruct (decide (c = ws)); [by eapply elem_of_Map_delete | done].
Qed.

(** Every frame a step sends goes to a connection of the registry. *)
Lemma step_targets e ev s c d :
  Send c d ∈ (step e ev s).2 → c ∈ (clients (ws_hub s)).*2.
Proof.
  intros Hin.
  destruct (is_http ev) eqn:Hhttp; [by eapply http_targets|].
  destruct ev as [ws|ws message|ws| | |]; try done; simpl in Hin.
  - destruct (decide (ws ∈ sockets s)); by apply elem_of_nil in Hin.
  - destruct (decide (ws ∈ sockets s)); [|by apply elem_of_nil in Hin].
    pose proof (on_message_targets e ws message (ws_hub s) c d) as Ht.
    destruct (on_message e ws message (ws_hub s)) as [h es]. by apply Ht.
  - destruct (decide (ws ∈ sockets s)); by apply elem_of_nil in Hin.
Qed.

(** Only its own register frame brings a connection into the registry. *)
Lemma step_stays_out e ev s c :
  no_register_from c ev = true →
  c ∉ (clients (ws_hub s)).*2 → c ∉ (clients (ws_hub (step e ev s).1)).*2.
Proof.
  intros Hev Hout.
  destruct ev as [ws|ws message|ws|req_body|id req_body|id].
  - simpl. by destruct (decide (ws ∈ sockets s)).
  - simpl. destruct (decide (ws ∈ sockets s)) as [Hws|]; [|done].
    destruct (is_str (type_of message) "register") eqn:Hreg.
    + destruct (register_is_object _ Hreg) as [parsedMessage ->].
      simpl in Hreg, Hev. rewrite Hreg, andb_true_r in Hev.
      apply negb_true_iff, bool_decide_eq_false in Hev.
      rewrite on_message_register by done. simpl.
      intros [?|?]%Map_set_values; [by subst | done].
    + pose proof (on_message_hub_unchanged e ws message (ws_hub s) Hreg) as Hsame.
      destruct (on_message e ws message (ws_hub s)) as [h es]. simpl in *. by subst h.
  - simpl. destruct (decide (ws ∈ sockets s)); [|done]. simpl.
    intros ([k c'] & -> & Hin%elem_of_close_each)%list_elem_of_fmap.
    apply Hout. apply list_elem_of_fmap. by exists (k, c').
  - destruct (http_keeps_hub e (POST req_body) s I) as [Hh _]. by rewrite Hh.
  - destruct (http_keeps_hub e (PUT id req_body) s I) as [Hh _]. by rewrite Hh.
  - destruct (http_keeps_hub e (DELETE id) s I) as [Hh _]. by rewrite Hh.
Qed.

Lemma run_sends_nothing_to trace s c c' d :
  Forall (λ ev, no_register_from c ev.2 = true) trace →
  c ∉ (clients (ws_hub s)).*2 →
  Send c' d ∈ (run trace s).2 → c' ≠ c.
Proof.
  revert s. induction trace as [|[e ev] trace IH]; intros s Hall Hout; simpl.
  - by intros ?%elem_of_nil.
  - apply Forall_cons in Hall as [Hev Hall]. simpl in Hev.
    pose proof (step_targets e ev s c' d) as Hstep.
    pose proof (step_stays_out e ev s c Hev Hout) as Hout1.
    destruct (step e ev s) as [s1 es1]. specialize (IH s1 Hall Hout1).
    destruct (run trace s1) as [s2 es2]. simpl in *.
    intros [Hin|Hin]%elem_of_app; [|by apply IH].
    intros ->. by apply Hout, Hstep.
Qed.

(** X19.  A connection whose only key is taken over by another connection
    stays open but drops out of every delivery: through any later events,
    for as long as it sends no register frame, the server sends it
    nothing, neither a relayed frame nor a broadcast. *)
Theorem superseded_connection_gets_nothing k c1 c2 s e1 e2 reg1 reg2 later c d :
  c1 ∈ sockets s → c2 ∈ sockets s → c1 ≠ c2 →
  c1 ∉ (clients (ws_hub s)).*2 →
  is_str (get_prop "type" reg1) "register" = true →
  get_prop "userKey" reg1 = Some (JStr k) →
  is_str (get_prop "type" reg2) "register" = true →
  get_prop "userKey" reg2 = Some (JStr k) →
  Forall (λ ev, no_register_from c1 ev.2 = true) later →
  let s1 := (step e1 (Message c1 (Parsed (JObj reg1))) s).1 in
  let s2 := (step e2 (Message c2 (Parsed (JObj reg2))) s1).1 in
  (c1 ∈ (clients (ws_hub s1)).*2)
  ∧ (c1 ∈ sockets s2)
  ∧ (c1 ∉ (clients (ws_hub s2)).*2)
  ∧ (Send c d ∈ (run later s2).2 → c ≠ c1).
Proof.
  intros Hc1 Hc2 Hne Hnot Hr1 Hk1 Hr2 Hk2 Hlater s1 s2.
  assert (Hs1 : s1 = with_hub {| clients := Map_set (KStr k) c1 (clients (ws_hub s));
                                 next_ref := next_ref (ws_hub s) |} s)
    by (by apply step_register).
  assert (Hs2 : s2 = with_hub {| clients := Map_set (KStr k) c2 (clients (ws_hub s1));
                                 next_ref := next_ref (ws_hub s1) |} s1).
  { apply step_register; [|done..]. by rewrite Hs1. }
  assert (Hout : c1 ∉ (clients (ws_hub s2)).*2).
  { rewrite Hs2, Hs1. simpl. rewrite Map_set_set.
    intros [?|?]%Map_set_values; done. }
  split_and!.
  - rewrite Hs1. simpl. apply list_elem_of_fmap. exists (KStr k, c1).
    split; [done|]. apply Map_get_Some, Map_get_set_eq.
  - by rewrite Hs2, Hs1.
  - done.
  - by apply run_sends_nothing_to.
Qed.

(** Connection 1 loses the key A to connection 2; a message is created,
    connection 3 calls A, another message is created. *)
Lemma superseded_connection_gets_nothing_witness :
  let s := (run [(quiet, Connection 1%nat); (quiet, Connection 2%nat);
                 (quiet, Connection 3%nat)] init).1 in
  let s1 := (step quiet (Message 1%nat (Parsed (JObj (register_frame "A")))) s).1 in
  let s2 := (step quiet (Message 2%nat (Parsed (JObj (register_frame "A")))) s1).1 in
  let call := [("type", JStr "offer"); ("userKey", JStr "C"); ("target", JStr "A")] in
  let later := [(quiet, POST hi_body); (quiet, Message 3%nat (Parsed (JObj call)));
                (quiet, POST hi_body)] in
  (1%nat ∈ sockets s2)
  ∧ sends (run later s2).2 ≠ []
  ∧ received 1%nat (run later s2).2 = []
  ∧ (Send 2%nat (JObj (relayed call)) ∈ (run later s2).2 → 2%nat ≠ 1%nat).
Proof.
  intros s s1 s2 call later.
  destruct (superseded_connection_gets_nothing "A" 1%nat 2%nat s quiet quiet
              (register_frame "A") (register_frame "A") later 2%nat
              (JObj (relayed call)))
    as (_ & Hopen & _ & Hother);
    try reflexivity; try (by apply (bool_decide_unpack _)); try discriminate.
  split_and!; [exact Hopen | vm_compute; discriminate | reflexivity | exact Hother].
Defined.

(** X20.  An update or a delete is not undone by a failed broadcast: when
    the send on some registered connection throws, PUT and DELETE on a
    stored message are answered 500, yet the update is stored (the
    [content] read back is the string the client sent for the new content)
    and the deleted message is gone. *)
Theorem write_survives_failed_broadcast e id req_body s content :
  redis_down e = false →
  exists_key (message_key id) (store s) = true →
  Exists (λ kc, send_throws e kc.2 = true) (clients (ws_hub s)) →
  get_prop "content" req_body = Some content →
  truthy (Some content) = true →
  ((put_message e id req_body s).1.1 = internal_error
   ∧ get_prop "content"
       (hgetall (message_key id) (store (put_message e id req_body s).1.2))
     = Some (JStr (to_arg content)))
  ∧ ((delete_message e id s).1.1 = internal_error
     ∧ exists_key (message_key id) (store (delete_message e id s).1.2) = false).
Proof.
  intros Hup Hex Hthrow Hc Tc. split_and!.
  - unfold put_message. rewrite Hc, Tc, Hup, Hex. simpl. unfold updateMessageById.
    pose proof (broadcast_throws e
      (event_of "update_message"
         (JObj (hgetall (message_key id)
                  (hmset (message_key id)
                     [("content", content); ("updated_at", JStr (now e))] (store s)))))
      _ Hthrow) as Hb.
    destruct (broadcast e _ (clients (ws_hub s))) as [es cpl]. simpl in Hb. by subst cpl.
  - rewrite (put_message_store e id req_body s content) by done.
    rewrite hgetall_hmset. simpl.
    rewrite get_set_prop_ne by done. apply get_set_prop_eq.
  - unfold delete_message, del. rewrite Hup, Hex. simpl.
    pose proof (broadcast_throws e
      (event_of "delete_message" (JObj [("id", JStr id)])) _ Hthrow) as Hb.
    destruct (broadcast e _ (clients (ws_hub s))) as [es cpl]. simpl in Hb. by subst cpl.
  - rewrite delete_message_deletes by done. apply exists_key_false. simpl.
    apply lookup_delete_eq.
Qed.

Lemma write_survives_failed_broadcast_witness :
  let s0 := {| store := store init;
               ws_hub := {| clients := three_clients; next_ref := 0 |};
               sockets := [1%nat; 2%nat; 3%nat] |} in
  let s := (post_messages quiet hi_body s0).1.2 in
  exists_key (message_key "1") (store s) = true
  ∧ Exists (λ kc, send_throws second_fails kc.2 = true) (clients (ws_hub s))
  ∧ (put_message second_fails "1" [("content", JStr "yo")] s).1.1 = internal_error
  ∧ get_prop "content"
      (hgetall (message_key "1")
         (store (put_message second_fails "1" [("content", JStr "yo")] s).1.2))
    = Some (JStr "yo").
Proof.
  intros s0 s.
  assert (Hthrow : Exists (λ kc, send_throws second_fails kc.2 = true)
                     (clients (ws_hub s)))
    by (apply Exists_cons; right; apply Exists_cons; by left).
  destruct (write_survives_failed_broadcast second_fails "1" [("content", JStr "yo")] s
              (JStr "yo") eq_refl eq_refl Hthrow eq_refl eq_refl)
    as [[Hres Hstored] _].
  split_and!; [reflexivity | exact Hthrow | exact Hres | exact Hstored].
Defined.
